(** * Review-record detail page: virtual list, fetch controller and viewer

    A shallow embedding of [static/web_patient/review_record_detail.js]:
    the module-level [state] object, the DOM elements cached in [els],
    and the functions of the layout engine, of the scroll-position
    search, of the fetch controller and of the image viewer.
    Asynchronous work (the [fetch] promise chain of [loadPage] and the
    [Image] decodes of [renderViewerImage]) is kept as explicit pending
    records in the world; a completion is an event delivered to the
    handler that the source registered.  The markup that [renderVirtual]
    writes into [els.virtualInner] and the console diagnostics are not
    part of the world.

    Numbers are JavaScript numbers that hold integers here (pixel sizes,
    indices, counts); they are embedded as [Z], with [NaN] and
    [undefined] kept as separate values because the layout arrays can
    hold them.  The one 32-bit operation of the file, [>> 1] in the
    binary search, is written with its wrap-around. *)

From Stdlib Require Import ZArith String Lia.
From stdpp Require Import base list.

Open Scope Z_scope.

(** ** JavaScript values stored in the layout arrays *)

Inductive value : Type :=
  | Num (z : Z)
  | NaN
  | Undefined.

(** [a + b] on numbers: [undefined] converts to [NaN], and [NaN] absorbs. *)
Definition js_add (a b : value) : value :=
  match a, b with
  | Num x, Num y => Num (x + y)
  | _, _ => NaN
  end.

(** [a - b] on numbers. *)
Definition js_sub (a b : value) : value :=
  match a, b with
  | Num x, Num y => Num (x - y)
  | _, _ => NaN
  end.

(** [a < b]: a comparison with [NaN] is false. *)
Definition js_lt (a b : value) : bool :=
  match a, b with
  | Num x, Num y => x <? y
  | _, _ => false
  end.

(** [v || 0] read as a number: [undefined], [NaN] and [0] are falsy. *)
Definition or_zero (v : value) : Z :=
  match v with
  | Num z => z
  | NaN | Undefined => 0
  end.

(** [ToInt32], applied by [>>] to its left operand. *)
Definition to_int32 (z : Z) : Z :=
  (z + 2 ^ 31) mod 2 ^ 32 - 2 ^ 31.

(** [z >> 1]. *)
Definition sar1 (z : Z) : Z := Z.shiftr (to_int32 z) 1.

(** [a % b] for [b <> 0]: the remainder takes the sign of the dividend. *)
Definition js_rem (a b : Z) : Z := Z.rem a b.

(** [Math.ceil(n / 3)] for an integer [n]. *)
Definition ceil_div3 (n : Z) : Z := (n + 2) / 3.

(** [Math.floor(n / 3)] for an integer [n]. *)
Definition floor_div3 (n : Z) : Z := n / 3.

(** ** Arrays

    [a[i]] reads [undefined] outside the array; [a[i] = v] overwrites
    inside the array and extends it, leaving holes, outside. *)

Definition arr_get (a : list value) (i : nat) : value :=
  default Undefined (a !! i).

Definition arr_get_z (a : list value) (i : Z) : value :=
  if i <? 0 then Undefined else arr_get a (Z.to_nat i).

Definition arr_set (a : list value) (i : nat) (v : value) : list value :=
  if (i <? length a)%nat then <[i:=v]> a
  else a ++ replicate (i - length a)%nat Undefined ++ [v].

(** ** Data model *)

(** A record group of the list API.  [image_urls] is [None] when the
    field is not an array. *)
Record Group : Type := mkGroup {
  report_date : string;
  image_urls : option (list string);
}.

Record Viewer : Type := mkViewer {
  isOpen : bool;
  images : list string;
  index : Z;
  touchStartX : Z;
  touchStartY : Z;
}.

(** The [state] object.  [abortController] holds the identifier of the
    request whose signal the controller owns.  The three diagnostics
    fields ([firstRenderReported], [startedAt], [performanceObserver])
    only feed [console.log] and are left out. *)
Record State : Type := mkState {
  categoryCode : string;
  title : string;
  patientId : string;
  reportMonth : string;
  pageNum : Z;
  pageSize : Z;
  total : Z;
  groups : list Group;
  heights : list value;
  offsets : list value;
  totalHeight : value;
  isLoading : bool;
  abortController : option nat;
  viewer : Viewer;
}.

(** *** DOM elements held in [els] *)

Record ScrollEl : Type := mkScrollEl {
  clientWidth : Z;
  clientHeight : Z;
  scrollTop : Z;
}.

Record ImageEl : Type := mkImageEl {
  img_src : string;
  img_hidden : bool;
}.

Record LoadingEl : Type := mkLoadingEl {
  loading_text : string;
  loading_hidden : bool;
}.

Inductive ToastType : Type := info | success | error.

Record Toast : Type := mkToast {
  toast_message : string;
  toast_type : ToastType;
}.

(** Each element is [None] when [document.getElementById] found nothing.
    For the three indicator elements and [els.viewer] the boolean is the
    presence of the [hidden] class; [virtualContainer] carries its
    [style.height] in pixels; [viewerIndex] carries its label
    ["i / n"] as the pair [(i, n)], the empty label as [None]; [toast]
    carries the toasts appended so far. *)
Record Els : Type := mkEls {
  scroll : option ScrollEl;
  monthDisplay : option string;
  virtualContainer : option value;
  empty : option bool;
  spinner : option bool;
  noMore : option bool;
  toast : option (list Toast);
  viewerEl : option bool;
  viewerImage : option ImageEl;
  viewerLoading : option LoadingEl;
  viewerIndex : option (option (Z * Z));
  bodyOverflowHidden : bool;
}.

(** *** Pending asynchronous work *)

(** The query string built by [buildApiUrl]. *)
Record ApiUrl : Type := mkApiUrl {
  q_patient_id : option string;
  q_category_code : string;
  q_report_month : string;
  q_page_num : Z;
  q_page_size : Z;
}.

(** One [fetch] issued by [loadPage], with what its promise callbacks
    close over: the [reset] flag and the five [preserve*] constants.
    [f_aborted] is set by [AbortController.abort()]. *)
Record Fetch : Type := mkFetch {
  f_id : nat;
  f_url : ApiUrl;
  f_reset : bool;
  preserveGroups : list Group;
  preserveHeights : list value;
  preserveOffsets : list value;
  preserveTotalHeight : value;
  preserveTotal : Z;
  f_aborted : bool;
}.

(** One [new Image()] created by [renderViewerImage]; the callbacks close
    over [url].  [l_index] records the viewer index the load was issued
    for; the callbacks do not read it. *)
Record ImageLoad : Type := mkImageLoad {
  l_id : nat;
  l_url : option string;
  l_index : Z;
}.

(** The page: script state, DOM, and pending work. *)
Record World : Type := mkWorld {
  st : State;
  els : Els;
  fetches : list Fetch;
  loads : list ImageLoad;
  next_id : nat;
}.

(** *** Field updates *)

Definition with_pageNum (v : Z) (s : State) : State :=
  mkState (categoryCode s) (title s) (patientId s) (reportMonth s) v
    (pageSize s) (total s) (groups s) (heights s) (offsets s)
    (totalHeight s) (isLoading s) (abortController s) (viewer s).

Definition with_reportMonth (v : string) (s : State) : State :=
  mkState (categoryCode s) (title s) (patientId s) v (pageNum s)
    (pageSize s) (total s) (groups s) (heights s) (offsets s)
    (totalHeight s) (isLoading s) (abortController s) (viewer s).

Definition with_total (v : Z) (s : State) : State :=
  mkState (categoryCode s) (title s) (patientId s) (reportMonth s) (pageNum s)
    (pageSize s) v (groups s) (heights s) (offsets s)
    (totalHeight s) (isLoading s) (abortController s) (viewer s).

Definition with_groups (v : list Group) (s : State) : State :=
  mkState (categoryCode s) (title s) (patientId s) (reportMonth s) (pageNum s)
    (pageSize s) (total s) v (heights s) (offsets s)
    (totalHeight s) (isLoading s) (abortController s) (viewer s).

Definition with_heights (v : list value) (s : State) : State :=
  mkState (categoryCode s) (title s) (patientId s) (reportMonth s) (pageNum s)
    (pageSize s) (total s) (groups s) v (offsets s)
    (totalHeight s) (isLoading s) (abortController s) (viewer s).

Definition with_offsets (v : list value) (s : State) : State :=
  mkState (categoryCode s) (title s) (patientId s) (reportMonth s) (pageNum s)
    (pageSize s) (total s) (groups s) (heights s) v
    (totalHeight s) (isLoading s) (abortController s) (viewer s).

Definition with_totalHeight (v : value) (s : State) : State :=
  mkState (categoryCode s) (title s) (patientId s) (reportMonth s) (pageNum s)
    (pageSize s) (total s) (groups s) (heights s) (offsets s)
    v (isLoading s) (abortController s) (viewer s).

Definition with_isLoading (v : bool) (s : State) : State :=
  mkState (categoryCode s) (title s) (patientId s) (reportMonth s) (pageNum s)
    (pageSize s) (total s) (groups s) (heights s) (offsets s)
    (totalHeight s) v (abortController s) (viewer s).

Definition with_abortController (v : option nat) (s : State) : State :=
  mkState (categoryCode s) (title s) (patientId s) (reportMonth s) (pageNum s)
    (pageSize s) (total s) (groups s) (heights s) (offsets s)
    (totalHeight s) (isLoading s) v (viewer s).

Definition with_viewer (v : Viewer) (s : State) : State :=
  mkState (categoryCode s) (title s) (patientId s) (reportMonth s) (pageNum s)
    (pageSize s) (total s) (groups s) (heights s) (offsets s)
    (totalHeight s) (isLoading s) (abortController s) v.

Definition with_scroll (v : option ScrollEl) (e : Els) : Els :=
  mkEls v (monthDisplay e) (virtualContainer e) (empty e) (spinner e)
    (noMore e) (toast e) (viewerEl e) (viewerImage e) (viewerLoading e)
    (viewerIndex e) (bodyOverflowHidden e).

Definition with_monthDisplay (v : option string) (e : Els) : Els :=
  mkEls (scroll e) v (virtualContainer e) (empty e) (spinner e)
    (noMore e) (toast e) (viewerEl e) (viewerImage e) (viewerLoading e)
    (viewerIndex e) (bodyOverflowHidden e).

Definition with_virtualContainer (v : option value) (e : Els) : Els :=
  mkEls (scroll e) (monthDisplay e) v (empty e) (spinner e)
    (noMore e) (toast e) (viewerEl e) (viewerImage e) (viewerLoading e)
    (viewerIndex e) (bodyOverflowHidden e).

Definition with_empty (v : option bool) (e : Els) : Els :=
  mkEls (scroll e) (monthDisplay e) (virtualContainer e) v (spinner e)
    (noMore e) (toast e) (viewerEl e) (viewerImage e) (viewerLoading e)
    (viewerIndex e) (bodyOverflowHidden e).

Definition with_spinner (v : option bool) (e : Els) : Els :=
  mkEls (scroll e) (monthDisplay e) (virtualContainer e) (empty e) v
    (noMore e) (toast e) (viewerEl e) (viewerImage e) (viewerLoading e)
    (viewerIndex e) (bodyOverflowHidden e).

Definition with_noMore (v : option bool) (e : Els) : Els :=
  mkEls (scroll e) (monthDisplay e) (virtualContainer e) (empty e) (spinner e)
    v (toast e) (viewerEl e) (viewerImage e) (viewerLoading e)
    (viewerIndex e) (bodyOverflowHidden e).

Definition with_toast (v : option (list Toast)) (e : Els) : Els :=
  mkEls (scroll e) (monthDisplay e) (virtualContainer e) (empty e) (spinner e)
    (noMore e) v (viewerEl e) (viewerImage e) (viewerLoading e)
    (viewerIndex e) (bodyOverflowHidden e).

Definition with_viewerEl (v : option bool) (e : Els) : Els :=
  mkEls (scroll e) (monthDisplay e) (virtualContainer e) (empty e) (spinner e)
    (noMore e) (toast e) v (viewerImage e) (viewerLoading e)
    (viewerIndex e) (bodyOverflowHidden e).

Definition with_viewerImage (v : option ImageEl) (e : Els) : Els :=
  mkEls (scroll e) (monthDisplay e) (virtualContainer e) (empty e) (spinner e)
    (noMore e) (toast e) (viewerEl e) v (viewerLoading e)
    (viewerIndex e) (bodyOverflowHidden e).

Definition with_viewerLoading (v : option LoadingEl) (e : Els) : Els :=
  mkEls (scroll e) (monthDisplay e) (virtualContainer e) (empty e) (spinner e)
    (noMore e) (toast e) (viewerEl e) (viewerImage e) v
    (viewerIndex e) (bodyOverflowHidden e).

Definition with_viewerIndex (v : option (option (Z * Z))) (e : Els) : Els :=
  mkEls (scroll e) (monthDisplay e) (virtualContainer e) (empty e) (spinner e)
    (noMore e) (toast e) (viewerEl e) (viewerImage e) (viewerLoading e)
    v (bodyOverflowHidden e).

Definition with_bodyOverflowHidden (v : bool) (e : Els) : Els :=
  mkEls (scroll e) (monthDisplay e) (virtualContainer e) (empty e) (spinner e)
    (noMore e) (toast e) (viewerEl e) (viewerImage e) (viewerLoading e)
    (viewerIndex e) v.

Definition on_st (f : State -> State) (w : World) : World :=
  mkWorld (f (st w)) (els w) (fetches w) (loads w) (next_id w).

Definition on_els (f : Els -> Els) (w : World) : World :=
  mkWorld (st w) (f (els w)) (fetches w) (loads w) (next_id w).

Definition with_fetches (v : list Fetch) (w : World) : World :=
  mkWorld (st w) (els w) v (loads w) (next_id w).

Definition with_loads (v : list ImageLoad) (w : World) : World :=
  mkWorld (st w) (els w) (fetches w) v (next_id w).

Definition with_next_id (v : nat) (w : World) : World :=
  mkWorld (st w) (els w) (fetches w) (loads w) v.

Definition on_viewer (f : Viewer -> Viewer) (w : World) : World :=
  on_st (fun s => with_viewer (f (viewer s)) s) w.

Definition with_index (v : Z) (r : Viewer) : Viewer :=
  mkViewer (isOpen r) (images r) v (touchStartX r) (touchStartY r).

Definition with_isOpen (v : bool) (r : Viewer) : Viewer :=
  mkViewer v (images r) (index r) (touchStartX r) (touchStartY r).

Definition with_images (v : list string) (r : Viewer) : Viewer :=
  mkViewer (isOpen r) v (index r) (touchStartX r) (touchStartY r).

Definition with_touchStart (x y : Z) (r : Viewer) : Viewer :=
  mkViewer (isOpen r) (images r) (index r) x y.

(** [arr.length] as a number. *)
Definition len {A : Type} (l : list A) : Z := Z.of_nat (length l).

(** ** Toasts and indicators *)

(** [showToast(message, type)]: appends one toast when the container
    exists.  The timed fade-out only removes the node later. *)
Definition showToast (message : string) (type : ToastType) (w : World) : World :=
  match toast (els w) with
  | None => w
  | Some ts => on_els (with_toast (Some (ts ++ [mkToast message type]))) w
  end.

Definition setLoading (loading : bool) (w : World) : World :=
  let w := on_st (with_isLoading loading) w in
  match spinner (els w) with
  | Some _ => on_els (with_spinner (Some (negb loading))) w
  | None => w
  end.

Definition setEmptyVisible (visible : bool) (w : World) : World :=
  match empty (els w) with
  | None => w
  | Some _ => on_els (with_empty (Some (negb visible))) w
  end.

Definition setNoMoreVisible (visible : bool) (w : World) : World :=
  match noMore (els w) with
  | None => w
  | Some _ => on_els (with_noMore (Some (negb visible))) w
  end.

Definition isAllLoaded (s : State) : bool :=
  (0 <? total s) && (total s <=? len (groups s)).

(** ** Layout engine *)

(** [rows] of [computeItemHeight]. *)
Definition item_rows (group : Group) : Z :=
  let images := match image_urls group with Some l => l | None => [] end in
  Z.max 1 (ceil_div3 (len images)).

(** [containerWidth] of [computeItemHeight]. *)
Definition container_width (e : Els) : Z :=
  match scroll e with Some sc => clientWidth sc | None => 375 end.

(** [thumb] of [computeItemHeight]. *)
Definition item_thumb (e : Els) : Z :=
  let gap := 8 in
  let containerWidth := container_width e in
  let gridWidth := Z.max 0 (containerWidth - 32) in
  Z.max 56 (floor_div3 (gridWidth - gap * 2)).

Definition computeItemHeight (e : Els) (group : Group) : Z :=
  let rows := item_rows group in
  let gap := 8 in
  let thumb := item_thumb e in
  let gridHeight := rows * thumb + (rows - 1) * gap in
  16 + 24 + 12 + gridHeight + 16.

(** The body of the [for] loop of [recomputeLayout], run for
    [i = start, start + 1, ...] over the groups from [start] on. *)
Fixpoint layout_loop (e : Els) (i : nat) (gs : list Group)
    (hs os : list value) : list value * list value :=
  match gs with
  | [] => (hs, os)
  | g :: gs' =>
      let hs' := arr_set hs i (Num (computeItemHeight e g)) in
      let o :=
        if (i =? 0)%nat then Num 0
        else js_add (arr_get os (i - 1)) (arr_get hs' (i - 1)) in
      layout_loop e (S i) gs' hs' (arr_set os i o)
  end.

Definition recomputeLayout (fromIndex : Z) (w : World) : World :=
  let s := st w in
  let start := Z.to_nat (Z.max 0 fromIndex) in
  let '(hs, os) :=
    layout_loop (els w) start (drop start (groups s)) (heights s) (offsets s) in
  let lastIndex := len (groups s) - 1 in
  let th :=
    if 0 <=? lastIndex
    then js_add (arr_get_z os lastIndex) (arr_get_z hs lastIndex)
    else Num 0 in
  let w := on_st (fun s => with_totalHeight th (with_offsets os (with_heights hs s))) w in
  match virtualContainer (els w) with
  | Some _ => on_els (with_virtualContainer (Some th)) w
  | None => w
  end.

(** ** Window resolver *)

(** The [while] loop of [findIndexByScrollTop] together with the clamp
    that follows it.  Leaving through [break] keeps [low <= high], so the
    clamp is skipped and the answer is [mid]; leaving through the loop
    condition has [low > high], so the answer is the clamp.  [None] only
    when [fuel] iterations did not finish the loop. *)
Fixpoint search_loop (fuel : nat) (s : State) (scrollTop low high : Z)
    : option Z :=
  match fuel with
  | O => None
  | S fuel' =>
      if low <=? high then
        let mid := sar1 (low + high) in
        let start := or_zero (arr_get_z (offsets s) mid) in
        let end_ := start + or_zero (arr_get_z (heights s) mid) in
        if scrollTop >=? end_ then search_loop fuel' s scrollTop (mid + 1) high
        else if scrollTop <? start then search_loop fuel' s scrollTop low (mid - 1)
        else Some mid
      else Some (Z.max 0 (Z.min low (len (groups s) - 1)))
  end.

(** Each iteration removes at least one index from [low .. high], so
    [groups.length + 1] iterations are enough fuel. *)
Definition findIndexByScrollTop (s : State) (scrollTop : Z) : option Z :=
  search_loop (S (length (groups s))) s scrollTop 0 (len (groups s) - 1).

(** ** Viewer *)

(** [urls[idx]] on an array of strings. *)
Definition url_at (urls : list string) (idx : Z) : option string :=
  if idx <? 0 then None else urls !! Z.to_nat idx.

(** A string-valued DOM property assigned a possibly undefined value. *)
Definition dom_string (o : option string) : string :=
  match o with
  | Some s => s
  | None => "undefined"%string
  end.

Definition renderViewerImage (w : World) : World :=
  let urls := images (viewer (st w)) in
  let idx := index (viewer (st w)) in
  match viewerLoading (els w), viewerImage (els w), viewerIndex (els w) with
  | Some _, Some im, Some _ =>
      if (length urls =? 0)%nat then
        on_els (fun e =>
          with_viewerIndex (Some None)
            (with_viewerImage (Some (mkImageEl (img_src im) true))
              (with_viewerLoading (Some (mkLoadingEl "暂无图片" false)) e))) w
      else
        let w := on_els (fun e =>
          with_viewerImage (Some (mkImageEl (img_src im) true))
            (with_viewerLoading (Some (mkLoadingEl "加载中..." false))
              (with_viewerIndex (Some (Some (idx + 1, len urls))) e))) w in
        let img := mkImageLoad (next_id w) (url_at urls idx) idx in
        with_next_id (S (next_id w)) (with_loads (loads w ++ [img]) w)
  | _, _, _ => w
  end.

(** [img.onload] of the load [l]. *)
Definition onload (l : ImageLoad) (w : World) : World :=
  if negb (isOpen (viewer (st w))) then w
  else
    let w :=
      match viewerImage (els w) with
      | Some _ =>
          on_els (with_viewerImage (Some (mkImageEl (dom_string (l_url l)) false))) w
      | None => w
      end in
    match viewerLoading (els w) with
    | Some lo =>
        on_els (with_viewerLoading (Some (mkLoadingEl (loading_text lo) true))) w
    | None => w
    end.

(** [img.onerror] of the load [l]. *)
Definition onerror (l : ImageLoad) (w : World) : World :=
  if negb (isOpen (viewer (st w))) then w
  else
    match viewerLoading (els w) with
    | Some lo =>
        on_els (with_viewerLoading
          (Some (mkLoadingEl "图片加载失败，点击重试" (loading_hidden lo)))) w
    | None => w
    end.

Definition openViewer (urls : list string) (startIndex : Z) (w : World) : World :=
  match viewerEl (els w) with
  | None => w
  | Some _ =>
      let w := on_viewer (with_images urls) w in
      let w := on_viewer
        (with_index (Z.max 0 (Z.min startIndex (len urls - 1)))) w in
      let w := on_viewer (with_isOpen true) w in
      let w := on_els (with_viewerEl (Some false)) w in
      let w := on_els (with_bodyOverflowHidden true) w in
      renderViewerImage w
  end.

Definition closeViewer (w : World) : World :=
  match viewerEl (els w) with
  | None => w
  | Some _ =>
      let w := on_viewer (with_isOpen false) w in
      let w := on_els (with_viewerEl (Some true)) w in
      let w := on_els (with_bodyOverflowHidden false) w in
      match viewerImage (els w) with
      | Some im => on_els (with_viewerImage (Some (mkImageEl "" (img_hidden im)))) w
      | None => w
      end
  end.

Definition prevImage (w : World) : World :=
  let v := viewer (st w) in
  if (length (images v) =? 0)%nat then w
  else
    let w := on_viewer
      (with_index (js_rem (index v - 1 + len (images v)) (len (images v)))) w in
    renderViewerImage w.

Definition nextImage (w : World) : World :=
  let v := viewer (st w) in
  if (length (images v) =? 0)%nat then w
  else
    let w := on_viewer
      (with_index (js_rem (index v + 1) (len (images v)))) w in
    renderViewerImage w.

(** The [touchend] listener, for a single changed touch at [(x, y)]. *)
Definition touchend (x y : Z) (w : World) : World :=
  let dx := x - touchStartX (viewer (st w)) in
  let dy := y - touchStartY (viewer (st w)) in
  if (Z.abs dx <? 40) || (Z.abs dx <? Z.abs dy) then w
  else if 0 <? dx then prevImage w
  else nextImage w.

(** The click listener of a thumbnail of card [groupIndex]. *)
Definition thumbClick (groupIndex imgIndex : Z) (w : World) : World :=
  let urls :=
    match (if groupIndex <? 0 then None
           else groups (st w) !! Z.to_nat groupIndex) with
    | Some g => match image_urls g with Some l => l | None => [] end
    | None => []
    end in
  openViewer urls imgIndex w.

(** ** Fetch controller *)

Definition buildApiUrl (s : State) : ApiUrl :=
  mkApiUrl
    (if String.eqb (patientId s) "" then None else Some (patientId s))
    (categoryCode s) (reportMonth s) (pageNum s) (pageSize s).

(** [controller.abort()] for the controller of request [id]. *)
Definition abort (id : nat) (fs : list Fetch) : list Fetch :=
  map (fun f =>
    if (f_id f =? id)%nat
    then mkFetch (f_id f) (f_url f) (f_reset f) (preserveGroups f)
           (preserveHeights f) (preserveOffsets f) (preserveTotalHeight f)
           (preserveTotal f) true
    else f) fs.

Definition cancelInFlight (w : World) : World :=
  match abortController (st w) with
  | Some id =>
      on_st (with_abortController None) (with_fetches (abort id (fetches w)) w)
  | None => w
  end.

(** [loadPage({ reset })] up to and including the [fetch] call; the
    promise callbacks are [on_fulfilled], [on_rejected], [on_finally]. *)
Definition loadPage (reset : bool) (w : World) : World :=
  if isLoading (st w) then w
  else if String.eqb (categoryCode (st w)) "" then
    showToast "缺少复查分类参数" error w
  else
    let w := if reset then on_st (with_pageNum 1) w else w in
    let w := cancelInFlight w in
    let id := next_id w in
    let w := with_next_id (S id) (on_st (with_abortController (Some id)) w) in
    let url := buildApiUrl (st w) in
    let w := on_st (with_isLoading true) w in
    let w := setLoading true w in
    let w := setNoMoreVisible false w in
    let w := setEmptyVisible false w in
    let s := st w in
    let f := mkFetch id url reset (groups s) (heights s) (offsets s)
               (totalHeight s) (total s) false in
    with_fetches (fetches w ++ [f]) w.

(** The parsed JSON body.  [d_total] is [parseInt(data.total || 0, 10)]
    for the integer the API reports; [d_list] is [None] when [data.list]
    is not an array; [d_success_false] is [data.success === false]. *)
Record Data : Type := mkData {
  d_success_false : bool;
  d_message : option string;
  d_total : Z;
  d_list : option (list Group);
}.

(** How the promise [fetch(...).then(res => res.json()...)] settles when
    the request was not aborted: with a response and its parsed body
    ([None] for a falsy body), or rejected with an error carrying
    [message] (network failure, invalid JSON). *)
Inductive Response : Type :=
  | Resolved (ok : bool) (data : option Data)
  | Rejected (message : option string).

Definition default_error : string := "数据加载失败，请重试".

(** [m || default] and [err.message ? err.message : default]. *)
Definition message_or_default (m : option string) : string :=
  match m with
  | Some s => if String.eqb s "" then default_error else s
  | None => default_error
  end.

(** The second [then] callback of request [f], after its guard passed. *)
Definition on_fulfilled (f : Fetch) (data : Data) (w : World) : World :=
  let list := match d_list data with Some l => l | None => [] end in
  let w := on_st (with_total (d_total data)) w in
  let w :=
    if f_reset f then
      let w := on_st (fun s =>
        with_totalHeight (Num 0)
          (with_offsets [] (with_heights [] (with_groups list s)))) w in
      let w :=
        match scroll (els w) with
        | Some sc =>
            on_els (with_scroll
              (Some (mkScrollEl (clientWidth sc) (clientHeight sc) 0))) w
        | None => w
        end in
      recomputeLayout 0 w
    else
      let startIndex := len (groups (st w)) in
      let w := on_st (fun s => with_groups (groups s ++ list) s) w in
      recomputeLayout startIndex w in
  let w := if total (st w) =? 0 then setEmptyVisible true w else w in
  if isAllLoaded (st w) then setNoMoreVisible true w
  else on_st (fun s => with_pageNum (pageNum s + 1) s) w.

(** The [catch] callback of request [f] for an error that is not an
    [AbortError]. *)
Definition on_rejected (f : Fetch) (message : option string) (w : World) : World :=
  let w := on_st (fun s =>
    with_total (preserveTotal f)
      (with_totalHeight (preserveTotalHeight f)
        (with_offsets (preserveOffsets f)
          (with_heights (preserveHeights f)
            (with_groups (preserveGroups f) s))))) w in
  let w := recomputeLayout 0 w in
  showToast (message_or_default message) error w.

(** The [finally] callback. *)
Definition on_finally (w : World) : World :=
  let w := setLoading false w in
  let w := on_st (with_isLoading false) w in
  on_st (with_abortController None) w.

(** The promise chain of request [f] run to its end.  An aborted request
    rejects with an [AbortError], which [catch] swallows. *)
Definition settle (f : Fetch) (r : Response) (w : World) : World :=
  if f_aborted f then on_finally w
  else
    match r with
    | Resolved ok data =>
        match data with
        | Some d =>
            if negb ok || d_success_false d
            then on_finally (on_rejected f (Some (message_or_default (d_message d))) w)
            else on_finally (on_fulfilled f d w)
        | None => on_finally (on_rejected f (Some default_error) w)
        end
    | Rejected message => on_finally (on_rejected f message w)
    end.

(** [handleScroll], run by the animation frame that follows a scroll
    signal.  [renderVirtual] rewrites the markup of [els.virtualInner]
    only, which the world does not carry. *)
Definition handleScroll (w : World) : World :=
  match scroll (els w) with
  | None => w
  | Some sc =>
      if isLoading (st w) then w
      else if isAllLoaded (st w) then w
      else
        let threshold := 600 in
        let bottom := scrollTop sc + clientHeight sc in
        if js_lt (js_sub (totalHeight (st w)) (Num bottom)) (Num threshold)
        then loadPage false w
        else w
  end.

(** The [change] listener of the month picker. *)
Definition monthChange (val : string) (w : World) : World :=
  if String.eqb val "" then w
  else
    let w := on_st (with_reportMonth val) w in
    let w :=
      match monthDisplay (els w) with
      | Some _ => on_els (with_monthDisplay (Some val)) w
      | None => w
      end in
    let w := on_st (fun s =>
      with_total 0 (with_totalHeight (Num 0)
        (with_offsets [] (with_heights [] (with_groups [] s))))) w in
    let w :=
      match virtualContainer (els w) with
      | Some _ => on_els (with_virtualContainer (Some (Num 0))) w
      | None => w
      end in
    let w := setNoMoreVisible false w in
    let w := setEmptyVisible false w in
    loadPage true w.

(** ** Page life cycle *)

(** What [initDom] reads from the document. *)
Record PageConfig : Type := mkPageConfig {
  data_patient_id : string;
  data_category_code : string;
  data_title : string;
  month_value : string;
  dom : Els;
}.

Definition initial_state (c : PageConfig) : State :=
  mkState (data_category_code c) (data_title c) (data_patient_id c)
    (month_value c) 1 10 0 [] [] [] (Num 0) false None
    (mkViewer false [] 0 0 0).

(** [init]: [initDom], the listener registrations, then the first load. *)
Definition init (c : PageConfig) : World :=
  loadPage true (mkWorld (initial_state c) (dom c) [] [] 0).

(** The signals the page reacts to. *)
Inductive Event : Type :=
  | Scroll (top : Z)
  | Resize (width height : Z)
  | MonthChange (val : string)
  | FetchSettled (id : nat) (r : Response)
  | ThumbClick (groupIndex imgIndex : Z)
  | CloseClick
  | PrevClick
  | NextClick
  | RetryClick
  | TouchStart (x y : Z)
  | TouchEnd (x y : Z)
  | ImageLoaded (id : nat)
  | ImageFailed (id : nat).

Definition find_fetch (id : nat) (fs : list Fetch) : option Fetch :=
  snd <$> list_find (fun f => f_id f = id) fs.

Definition find_load (id : nat) (ls : list ImageLoad) : option ImageLoad :=
  snd <$> list_find (fun l => l_id l = id) ls.

(** One signal delivered to its listener.  A completion for a request or
    an image that is not pending does nothing; listeners on a missing
    element were never registered. *)
Definition step (ev : Event) (w : World) : World :=
  match ev with
  | Scroll top =>
      match scroll (els w) with
      | Some sc =>
          handleScroll
            (on_els (with_scroll
              (Some (mkScrollEl (clientWidth sc) (clientHeight sc) top))) w)
      | None => w
      end
  | Resize width height =>
      match scroll (els w) with
      | Some sc =>
          on_els (with_scroll (Some (mkScrollEl width height (scrollTop sc)))) w
      | None => w
      end
  | MonthChange val => monthChange val w
  | FetchSettled id r =>
      match find_fetch id (fetches w) with
      | Some f =>
          settle f r
            (with_fetches
              (filter (fun f' => f_id f' ≠ id) (fetches w)) w)
      | None => w
      end
  | ThumbClick groupIndex imgIndex => thumbClick groupIndex imgIndex w
  | CloseClick => closeViewer w
  | PrevClick => match viewerEl (els w) with Some _ => prevImage w | None => w end
  | NextClick => match viewerEl (els w) with Some _ => nextImage w | None => w end
  | RetryClick =>
      match viewerEl (els w), viewerLoading (els w) with
      | Some _, Some _ => renderViewerImage w
      | _, _ => w
      end
  | TouchStart x y =>
      match viewerEl (els w) with
      | Some _ => on_viewer (with_touchStart x y) w
      | None => w
      end
  | TouchEnd x y =>
      match viewerEl (els w) with Some _ => touchend x y w | None => w end
  | ImageLoaded id =>
      match find_load id (loads w) with
      | Some l =>
          onload l (with_loads (filter (fun l' => l_id l' ≠ id) (loads w)) w)
      | None => w
      end
  | ImageFailed id =>
      match find_load id (loads w) with
      | Some l =>
          onerror l (with_loads (filter (fun l' => l_id l' ≠ id) (loads w)) w)
      | None => w
      end
  end.

(** The world after a sequence of signals, oldest first. *)
Definition run (evs : list Event) (w : World) : World :=
  fold_left (fun w ev => step ev w) evs w.

(** Worlds the page can be in: [init] followed by any signals. *)
Definition reachable (w : World) : Prop :=
  exists c evs, w = run evs (init c).

(** ** Specification vocabulary *)

(** The layout-table invariant on the entries below [k]: every entry
    holds numbers, [offsets[0] = 0] and
    [offsets[i] = offsets[i-1] + heights[i-1]]. *)
Definition table_ok (k : nat) (hs os : list value) : Prop :=
  forall i, (i < k)%nat ->
    exists h o, arr_get hs i = Num h /\ arr_get os i = Num o /\
      match i with
      | O => o = 0
      | S j => js_add (arr_get os j) (arr_get hs j) = Num o
      end.

(** [heights[0] + ... + heights[k-1]], summed the way JavaScript would. *)
Fixpoint heights_sum (hs : list value) (k : nat) : value :=
  match k with
  | O => Num 0
  | S j => js_add (heights_sum hs j) (arr_get hs j)
  end.

(** Every height below [k] is a strictly positive number. *)
Definition heights_positive (k : nat) (hs : list value) : Prop :=
  forall i, (i < k)%nat -> exists h, arr_get hs i = Num h /\ 0 < h.

(** [probe] falls inside the extent of item [i]. *)
Definition covers (s : State) (i : Z) (probe : Z) : Prop :=
  exists o h, arr_get_z (offsets s) i = Num o /\ arr_get_z (heights s) i = Num h /\
    o <= probe < o + h.

(** The sum of the first [i] heights as an integer. *)
Definition psum (hs : list value) (i : nat) : Z := or_zero (heights_sum hs i).

(** [w'] differs from [w] in the viewer, the DOM and the pending image
    loads at most. *)
Definition viewer_only (w w' : World) : Prop :=
  st w' = with_viewer (viewer (st w')) (st w) /\ fetches w' = fetches w.

(** ** Sample page

    A page whose template supplies every element, on a 375 x 600
    viewport, used to run the definitions on concrete inputs. *)

Definition sample_dom : Els :=
  mkEls (Some (mkScrollEl 375 600 0)) (Some ""%string) (Some (Num 0))
    (Some true) (Some true) (Some true) (Some [])
    (Some true) (Some (mkImageEl "" true)) (Some (mkLoadingEl "" true))
    (Some None) false.

Definition sample_config : PageConfig :=
  mkPageConfig "17" "blood_pressure" "" "2025-01" sample_dom.

(** A group with [k] images. *)
Definition group_of (k : nat) : Group :=
  mkGroup "2025-01-05" (Some (replicate k "https://oss.example/a.jpg"%string)).

(** A world outside any request, with the given list content. *)
Definition world_of (e : Els) (gs : list Group) (hs os : list value)
    (th : value) : World :=
  mkWorld
    (mkState "blood_pressure" "" "17" "2025-01" 2 10 25 gs hs os th false None
       (mkViewer false [] 0 0 0))
    e [] [] 1.

(** A group with three distinct images. *)
Definition album : Group :=
  mkGroup "2025-01-05"
    (Some ["https://oss.example/a.jpg"; "https://oss.example/b.jpg";
           "https://oss.example/c.jpg"]%string).

(** A successful response carrying [total] and one page of groups. *)
Definition page (total : Z) (l : list Group) : Response :=
  Resolved true (Some (mkData false None total (Some l))).

(** The responses that make the promise chain end in [catch] with an
    error other than an [AbortError]. *)
Definition is_failure (r : Response) : bool :=
  match r with
  | Resolved ok (Some d) => negb ok || d_success_false d
  | Resolved ok None => true
  | Rejected _ => true
  end.

(** The list content [s] holds is the layout of its groups at the
    container width of [e]. *)
Definition in_sync (e : Els) (s : State) : Prop :=
  table_ok (length (groups s)) (heights s) (offsets s) /\
  (forall i g, groups s !! i = Some g ->
     arr_get (heights s) i = Num (computeItemHeight e g)) /\
  totalHeight s = heights_sum (heights s) (length (groups s)).

(** * Arrays *)

Lemma arr_get_set_eq a i v : arr_get (arr_set a i v) i = v.
Proof.
  unfold arr_get, arr_set.
  destruct (i <? length a)%nat eqn:E.
  - apply Nat.ltb_lt in E. by rewrite list_lookup_insert_eq.
  - apply Nat.ltb_ge in E.
    rewrite lookup_app_r by lia.
    rewrite lookup_app_r by (rewrite length_replicate; lia).
    rewrite length_replicate.
    by replace (i - length a - (i - length a))%nat with 0%nat by lia.
Qed.

Lemma arr_get_set_ne a i j v : i <> j -> arr_get (arr_set a i v) j = arr_get a j.
Proof.
  intros Hne. unfold arr_get, arr_set.
  destruct (i <? length a)%nat eqn:E.
  - by rewrite list_lookup_insert_ne.
  - apply Nat.ltb_ge in E.
    destruct (decide (j < length a)%nat) as [Hj|Hj].
    + by rewrite lookup_app_l.
    + rewrite (lookup_ge_None_2 a j) by lia.
      rewrite lookup_app_r by lia.
      destruct (decide (j < i)%nat) as [Hji|Hji].
      * rewrite lookup_app_l by (rewrite length_replicate; lia).
        rewrite lookup_replicate_2 by lia. done.
      * rewrite lookup_ge_None_2; [done|].
        rewrite length_app, length_replicate. simpl. lia.
Qed.

Lemma arr_get_z_nat a (i : nat) : arr_get_z a (Z.of_nat i) = arr_get a i.
Proof.
  unfold arr_get_z.
  destruct (Z.of_nat i <? 0) eqn:E; [apply Z.ltb_lt in E; lia|].
  by rewrite Nat2Z.id.
Qed.

(** * Layout engine *)

Lemma ceil_div3_spec n : 3 * (ceil_div3 n - 1) < n <= 3 * ceil_div3 n.
Proof.
  unfold ceil_div3.
  pose proof (Z.div_mod (n + 2) 3 ltac:(lia)).
  pose proof (Z.mod_pos_bound (n + 2) 3 ltac:(lia)). lia.
Qed.

Lemma floor_div3_spec n : 3 * floor_div3 n <= n < 3 * (floor_div3 n + 1).
Proof.
  unfold floor_div3.
  pose proof (Z.div_mod n 3 ltac:(lia)).
  pose proof (Z.mod_pos_bound n 3 ltac:(lia)). lia.
Qed.

(** The loop writes no entry below its starting index. *)
Lemma layout_loop_frame e gs : forall i hs os j,
  (j < i)%nat ->
  arr_get (layout_loop e i gs hs os).1 j = arr_get hs j /\
  arr_get (layout_loop e i gs hs os).2 j = arr_get os j.
Proof.
  induction gs as [|g gs IH]; intros i hs os j Hj; simpl; [done|].
  destruct (IH (S i) (arr_set hs i (Num (computeItemHeight e g)))
    (arr_set os i
       (if (i =? 0)%nat then Num 0
        else js_add (arr_get os (i - 1))
               (arr_get (arr_set hs i (Num (computeItemHeight e g))) (i - 1))))
    j ltac:(lia)) as [H1 H2].
  rewrite H1, H2. rewrite !arr_get_set_ne by lia. done.
Qed.

(** One iteration extends the invariant by one entry. *)
Lemma table_ok_step e g i hs os :
  table_ok i hs os ->
  table_ok (S i) (arr_set hs i (Num (computeItemHeight e g)))
    (arr_set os i
       (if (i =? 0)%nat then Num 0
        else js_add (arr_get os (i - 1))
               (arr_get (arr_set hs i (Num (computeItemHeight e g))) (i - 1)))).
Proof.
  intros Hok j Hj.
  destruct (decide (j = i)) as [->|Hne].
  - rewrite !arr_get_set_eq.
    destruct i as [|i'].
    + simpl. by exists (computeItemHeight e g), 0.
    + replace (S i' - 1)%nat with i' by lia.
      rewrite !arr_get_set_ne by lia.
      destruct (Hok i' ltac:(lia)) as (h & o & Hh & Ho & _).
      rewrite Hh, Ho. simpl.
      by exists (computeItemHeight e g), (o + h).
  - rewrite !arr_get_set_ne by lia.
    destruct (Hok j ltac:(lia)) as (h & o & Hh & Ho & Hrec).
    exists h, o. split; [done|]. split; [done|].
    destruct j as [|j']; [done|].
    rewrite !arr_get_set_ne by lia. done.
Qed.

Lemma layout_loop_ok e gs : forall i hs os,
  table_ok i hs os ->
  table_ok (i + length gs)
    (layout_loop e i gs hs os).1 (layout_loop e i gs hs os).2.
Proof.
  induction gs as [|g gs IH]; intros i hs os Hok; simpl.
  - by rewrite Nat.add_0_r.
  - replace (i + S (length gs))%nat with (S i + length gs)%nat by lia.
    apply IH. by apply table_ok_step.
Qed.

Lemma table_ok_sum k hs os :
  table_ok k hs os ->
  forall i, (i < k)%nat ->
    arr_get os i = heights_sum hs i /\ exists z, heights_sum hs (S i) = Num z.
Proof.
  intros Hok i. induction i as [|i IH]; intros Hi.
  - destruct (Hok 0%nat Hi) as (h & o & Hh & Ho & ->).
    split; [done|]. simpl. rewrite Hh. by exists (0 + h).
  - destruct (Hok (S i) Hi) as (h & o & Hh & Ho & Hrec).
    destruct (IH ltac:(lia)) as [Hoi [z Hz]].
    assert (arr_get os (S i) = heights_sum hs (S i)) as Heq.
    { rewrite Ho, <- Hrec. simpl. by rewrite Hoi. }
    split; [done|].
    change (heights_sum hs (S (S i)))
      with (js_add (heights_sum hs (S i)) (arr_get hs (S i))).
    rewrite Hz, Hh. by exists (z + h).
Qed.

Lemma recomputeLayout_st fromIndex w :
  st (recomputeLayout fromIndex w) =
  let start := Z.to_nat (Z.max 0 fromIndex) in
  let r := layout_loop (els w) start (drop start (groups (st w)))
             (heights (st w)) (offsets (st w)) in
  let lastIndex := len (groups (st w)) - 1 in
  with_totalHeight
    (if 0 <=? lastIndex
     then js_add (arr_get_z r.2 lastIndex) (arr_get_z r.1 lastIndex)
     else Num 0)
    (with_offsets r.2 (with_heights r.1 (st w))).
Proof.
  unfold recomputeLayout.
  destruct (layout_loop _ _ _ _ _) as [hs os]. simpl.
  by destruct (virtualContainer (els w)).
Qed.

(** Recomputing from [fromIndex] completes a table that is sound below
    [fromIndex], and sets [totalHeight] to the sum of the heights. *)
Lemma recomputeLayout_table (fromIndex : Z) (w : World) :
  let n := length (groups (st w)) in
  let start := Z.to_nat (Z.max 0 fromIndex) in
  table_ok (Nat.min start n) (heights (st w)) (offsets (st w)) ->
  let s' := st (recomputeLayout fromIndex w) in
  table_ok n (heights s') (offsets s') /\
  totalHeight s' = heights_sum (heights s') n.
Proof.
  intros n start Hok s'.
  assert (table_ok n (heights s') (offsets s')) as Hall.
  { subst s'. rewrite recomputeLayout_st. simpl. fold start.
    destruct (decide (start <= n)%nat) as [Hle|Hgt].
    - replace n with (start + length (drop start (groups (st w))))%nat
        by (rewrite length_drop; lia).
      apply layout_loop_ok. by replace (Nat.min start n) with start in Hok by lia.
    - rewrite drop_ge by lia. simpl.
      by replace (Nat.min start n) with n in Hok by lia. }
  split; [done|].
  subst s'. rewrite recomputeLayout_st in *. simpl in *. fold start in Hall |- *.
  unfold len. fold n.
  destruct n as [|m].
  - done.
  - replace (0 <=? Z.of_nat (S m) - 1) with true by (symmetry; apply Z.leb_le; lia).
    replace (Z.of_nat (S m) - 1) with (Z.of_nat m) by lia.
    rewrite !arr_get_z_nat. simpl.
    by destruct (table_ok_sum _ _ _ Hall m ltac:(lia)) as [-> _].
Qed.

(** C1. When the layout-table entries below [fromIndex] satisfy the
    invariant, then after [recomputeLayout(fromIndex)] the whole table
    (one entry per group) satisfies it: all entries are numbers,
    [offsets[0] = 0], [offsets[i] = offsets[i-1] + heights[i-1]], hence
    [offsets[i]] is the sum of [heights[0..i-1]]; and [totalHeight] is the
    sum of all heights, which is [0] for an empty group sequence. *)
Theorem recomputeLayout_invariant (fromIndex : Z) (w : World) :
  let n := length (groups (st w)) in
  let start := Z.to_nat (Z.max 0 fromIndex) in
  table_ok (Nat.min start n) (heights (st w)) (offsets (st w)) ->
  let s' := st (recomputeLayout fromIndex w) in
  table_ok n (heights s') (offsets s') /\
  (forall i, (i < n)%nat -> arr_get (offsets s') i = heights_sum (heights s') i) /\
  totalHeight s' = heights_sum (heights s') n /\
  (exists z, totalHeight s' = Num z) /\
  (n = 0%nat -> totalHeight s' = Num 0).
Proof.
  intros n start Hok s'.
  destruct (recomputeLayout_table fromIndex w Hok) as [Hall Htot].
  fold n in Hall, Htot. fold s' in Hall, Htot.
  split; [done|]. split.
  { intros i Hi. by apply (table_ok_sum _ _ _ Hall). }
  split; [done|]. split.
  - rewrite Htot. destruct n as [|m]; [by exists 0|].
    by destruct (table_ok_sum _ _ _ Hall m ltac:(lia)) as [_ ?].
  - intros Hn. rewrite Htot, Hn. done.
Qed.

Lemma recomputeLayout_invariant_witness :
  let w := world_of sample_dom [group_of 7; group_of 0; group_of 3]
             [Num 411] [Num 0] (Num 411) in
  table_ok 1 (heights (st w)) (offsets (st w)) /\
  table_ok 3 (heights (st (recomputeLayout 1 w)))
    (offsets (st (recomputeLayout 1 w))) /\
  totalHeight (st (recomputeLayout 1 w)) = Num (411 + 177 + 177).
Proof.
  intros w.
  assert (table_ok 1 (heights (st w)) (offsets (st w))) as H.
  { intros i Hi. destruct i as [|i]; [|lia]. exists 411, 0. by vm_compute. }
  split; [exact H|].
  pose proof (recomputeLayout_invariant 1 w H) as (Hok & _ & Htot & _).
  split; [exact Hok|]. rewrite Htot. reflexivity.
Defined.

(** What [recomputeLayout] leaves alone. *)
Lemma recomputeLayout_rest (fromIndex : Z) (w : World) :
  let w' := recomputeLayout fromIndex w in
  st w' = with_totalHeight (totalHeight (st w'))
            (with_offsets (offsets (st w'))
               (with_heights (heights (st w')) (st w))) /\
  els w' = with_virtualContainer (virtualContainer (els w')) (els w) /\
  fetches w' = fetches w /\ loads w' = loads w /\ next_id w' = next_id w.
Proof.
  intros w'.
  split; [subst w'; by rewrite recomputeLayout_st|].
  subst w'. unfold recomputeLayout.
  destruct (layout_loop _ _ _ _ _) as [hs os]. simpl.
  destruct (virtualContainer (els w)) eqn:E; simpl.
  - done.
  - split; [|done]. destruct (els w). simpl in *. by subst.
Qed.

(** C10. For [0 <= fromIndex <= groups.length], [recomputeLayout(fromIndex)]
    leaves [heights[i]] and [offsets[i]] as they were for every
    [i < fromIndex] and leaves the group sequence as it was; in the state
    only [heights], [offsets] and [totalHeight] can differ, and outside
    the state only the height of the virtual container. *)
Theorem recomputeLayout_frame (fromIndex : Z) (w : World) :
  0 <= fromIndex <= len (groups (st w)) ->
  let w' := recomputeLayout fromIndex w in
  groups (st w') = groups (st w) /\
  (forall i : nat, Z.of_nat i < fromIndex ->
     arr_get (heights (st w')) i = arr_get (heights (st w)) i /\
     arr_get (offsets (st w')) i = arr_get (offsets (st w)) i) /\
  st w' = with_totalHeight (totalHeight (st w'))
            (with_offsets (offsets (st w'))
               (with_heights (heights (st w')) (st w))) /\
  els w' = with_virtualContainer (virtualContainer (els w')) (els w) /\
  fetches w' = fetches w /\ loads w' = loads w /\ next_id w' = next_id w.
Proof.
  intros Hrange w'.
  split; [subst w'; by rewrite recomputeLayout_st|].
  split.
  { intros i Hi. subst w'. rewrite recomputeLayout_st. simpl.
    apply layout_loop_frame. lia. }
  exact (recomputeLayout_rest fromIndex w).
Qed.

Lemma recomputeLayout_frame_witness :
  let w := world_of sample_dom [group_of 7; group_of 0; group_of 3]
             [Num 1; Num 2; Num 3] [Num 4; Num 5; Num 6] (Num 7) in
  0 <= 2 <= len (groups (st w)) /\
  heights (st (recomputeLayout 2 w)) = [Num 1; Num 2; Num 177] /\
  offsets (st (recomputeLayout 2 w)) = [Num 4; Num 5; Num 7] /\
  arr_get (heights (st (recomputeLayout 2 w))) 1 = Num 2 /\
  arr_get (offsets (st (recomputeLayout 2 w))) 1 = Num 5.
Proof.
  intros w.
  assert (0 <= 2 <= len (groups (st w))) as H by (vm_compute; split; discriminate).
  split; [exact H|].
  split; [reflexivity|]. split; [reflexivity|].
  pose proof (recomputeLayout_frame 2 w H) as (_ & Hfr & _).
  destruct (Hfr 1%nat ltac:(lia)) as [Hh Ho].
  split; [rewrite Hh | rewrite Ho]; reflexivity.
Defined.

(** The item height, with the rounding of its two divisions spelled
    out: [rows] is the least count of 3-wide rows holding the images (at
    least 1), [thumb] is a third of the content width less two gaps,
    rounded down, and at least 56. *)
Lemma computeItemHeight_formula (e : Els) (g : Group) :
  let count := len (match image_urls g with Some l => l | None => [] end) in
  let contentWidth := Z.max 0 (container_width e - 32) in
  let rows := item_rows g in
  let thumb := item_thumb e in
  computeItemHeight e g = 68 + (rows * thumb + (rows - 1) * 8) /\
  1 <= rows /\ count <= 3 * rows /\ (1 < rows -> 3 * (rows - 1) < count) /\
  56 <= thumb /\ contentWidth - 2 * 8 < 3 * (thumb + 1) /\
  (56 < thumb -> 3 * thumb <= contentWidth - 2 * 8).
Proof.
  intros count contentWidth rows thumb.
  subst rows thumb. unfold computeItemHeight, item_rows, item_thumb.
  fold count. fold contentWidth.
  pose proof (ceil_div3_spec count).
  pose proof (floor_div3_spec (contentWidth - 8 * 2)).
  repeat split; lia.
Qed.

(** C7, as the claim states it, fails: on a 375px scroll container the
    thumbnail of a 7-image group is 109px, not 119px. *)
Lemma thumb_at_375_is_not_119 :
  container_width sample_dom = 375 /\
  item_rows (group_of 7) = 3 /\
  item_thumb sample_dom = 109 /\
  ~ (119 - 1 <= item_thumb sample_dom <= 119 + 1).
Proof.
  split; [reflexivity|]. split; [reflexivity|]. split; [reflexivity|].
  vm_compute. intros [H _]. by apply H.
Qed.

(** C7, amended. With scroll-container width 375 and gap 8, a group with
    7 images has [ceil(7/3) = 3] rows and a thumbnail edge of 109px: the
    content width is the container width less 32 (343), and
    [floor((343 - 2*8)/3) = 109], above the minimum of 56.  The item
    height is [68 + rows*thumb + (rows-1)*gap = 411]. *)
Theorem item_height_7_images_375 (e : Els) (sc : ScrollEl) (g : Group)
    (urls : list string) :
  scroll e = Some sc -> clientWidth sc = 375 ->
  image_urls g = Some urls -> length urls = 7%nat ->
  item_rows g = 3 /\
  item_thumb e = 109 /\
  item_thumb e = Z.max 56 (floor_div3 (Z.max 0 (375 - 32) - 2 * 8)) /\
  computeItemHeight e g = 16 + 24 + 12 + (3 * 109 + (3 - 1) * 8) + 16 /\
  computeItemHeight e g = 411.
Proof.
  intros Hsc Hw Hurls Hlen.
  unfold computeItemHeight, item_rows, item_thumb, container_width, len.
  rewrite Hsc, Hw, Hurls, Hlen. by vm_compute.
Qed.

Lemma item_height_7_images_375_witness :
  scroll sample_dom = Some (mkScrollEl 375 600 0) /\
  length (replicate 7 "https://oss.example/a.jpg"%string) = 7%nat /\
  item_thumb sample_dom = 109 /\
  computeItemHeight sample_dom (group_of 7) = 411.
Proof.
  split; [reflexivity|]. split; [reflexivity|].
  pose proof (item_height_7_images_375 sample_dom (mkScrollEl 375 600 0)
    (group_of 7) (replicate 7 "https://oss.example/a.jpg"%string)
    eq_refl eq_refl eq_refl eq_refl) as (_ & Ht & _ & _ & Hh).
  split; [exact Ht | exact Hh].
Defined.

(** * Window resolver *)

Lemma sar1_mid low high :
  0 <= low -> low <= high -> high < 2 ^ 30 ->
  sar1 (low + high) = (low + high) / 2 /\ low <= (low + high) / 2 <= high.
Proof.
  intros H0 Hle Hhi. unfold sar1, to_int32.
  assert (2 ^ 30 = 1073741824) as E30 by reflexivity.
  assert (2 ^ 31 = 2147483648) as E31 by reflexivity.
  assert (2 ^ 32 = 4294967296) as E32 by reflexivity.
  rewrite E31, E32. rewrite E30 in Hhi.
  rewrite Z.mod_small by lia.
  rewrite Z.shiftr_div_pow2 by lia.
  replace (low + high + 2147483648 - 2147483648) with (low + high) by lia.
  change (2 ^ 1) with 2.
  pose proof (Z.div_mod (low + high) 2 ltac:(lia)).
  pose proof (Z.mod_pos_bound (low + high) 2 ltac:(lia)).
  lia.
Qed.

(** The search on a state whose table is sound for all [n] groups, with
    positive heights.  [psum] is strictly increasing there, which is what
    each of the three exits of an iteration relies on. *)
Section Search.
Variable s : State.
Variable probe : Z.
Let n : nat := length (groups s).
Let hs : list value := heights s.
Hypothesis Hn : Z.of_nat n <= 2 ^ 30.
Hypothesis Hok : table_ok n hs (offsets s).
Hypothesis Hpos : heights_positive n hs.

Lemma table_entry (i : nat) :
  (i < n)%nat ->
  arr_get (offsets s) i = Num (psum hs i) /\
  exists h, arr_get hs i = Num h /\ 0 < h /\ psum hs (S i) = psum hs i + h.
Proof.
  intros Hi.
  destruct (table_ok_sum _ _ _ Hok i Hi) as [Ho _].
  destruct (Hok i Hi) as (h & o & Hh & Ho' & _).
  destruct (Hpos i Hi) as (h' & Hh' & Hp).
  assert (h' = h) as -> by congruence.
  assert (heights_sum hs i = Num o) as Hs by congruence.
  split.
  - unfold psum. by rewrite Hs.
  - exists h. split; [done|]. split; [done|].
    unfold psum. simpl. by rewrite Hs, Hh.
Qed.

Lemma psum_mono (i j : nat) :
  (i <= j)%nat -> (j <= n)%nat -> psum hs i <= psum hs j.
Proof.
  intros Hij. induction Hij as [|j Hij IH]; intros Hj; [lia|].
  destruct (table_entry j ltac:(lia)) as (_ & h & _ & Hp & ->).
  specialize (IH ltac:(lia)). lia.
Qed.

Lemma psum_0 : psum hs 0 = 0.
Proof. reflexivity. Qed.

Lemma cover_exists (k : nat) :
  (k <= n)%nat -> 0 <= probe < psum hs k ->
  exists t, (t < k)%nat /\ psum hs t <= probe < psum hs (S t).
Proof.
  induction k as [|k IH]; intros Hk Hp.
  - rewrite psum_0 in Hp. lia.
  - destruct (decide (probe < psum hs k)) as [Hlt|Hge].
    + destruct (IH ltac:(lia) ltac:(lia)) as (t & Ht & Hc).
      exists t. split; [lia|done].
    + exists k. split; lia.
Qed.

Lemma cover_unique (i j : nat) :
  (i < n)%nat -> (j < n)%nat ->
  psum hs i <= probe < psum hs (S i) ->
  psum hs j <= probe < psum hs (S j) ->
  i = j.
Proof.
  intros Hi Hj Hci Hcj.
  destruct (Nat.lt_trichotomy i j) as [Hlt|[Heq|Hgt]]; [|done|].
  - pose proof (psum_mono (S i) j ltac:(lia) ltac:(lia)). lia.
  - pose proof (psum_mono (S j) i ltac:(lia) ltac:(lia)). lia.
Qed.

(** What one iteration reads at an index inside the table. *)
Lemma read_mid (mid : Z) :
  0 <= mid < Z.of_nat n ->
  or_zero (arr_get_z (offsets s) mid) = psum hs (Z.to_nat mid) /\
  or_zero (arr_get_z (offsets s) mid) + or_zero (arr_get_z (heights s) mid)
    = psum hs (S (Z.to_nat mid)).
Proof.
  intros Hm.
  assert (forall a, arr_get_z a mid = arr_get a (Z.to_nat mid)) as Hget.
  { intros a. rewrite <- (arr_get_z_nat a). f_equal. lia. }
  rewrite !Hget.
  destruct (table_entry (Z.to_nat mid) ltac:(lia)) as (Ho & h & Hh & _ & Hs).
  fold hs. rewrite Ho, Hh, Hs. done.
Qed.

Lemma search_loop_inside (t : nat) :
  (t < n)%nat -> psum hs t <= probe < psum hs (S t) ->
  forall fuel low high,
    0 <= low -> low <= Z.of_nat t -> Z.of_nat t <= high -> high < Z.of_nat n ->
    high - low < Z.of_nat fuel ->
    search_loop fuel s probe low high = Some (Z.of_nat t).
Proof.
  intros Ht Hc fuel.
  induction fuel as [|fuel IH]; intros low high H0 Hlt Hth Hhn Hfuel; [lia|].
  simpl.
  replace (low <=? high) with true by (symmetry; apply Z.leb_le; lia).
  destruct (sar1_mid low high H0 ltac:(lia) ltac:(lia)) as [-> Hmid].
  set (mid := (low + high) / 2) in *.
  destruct (read_mid mid ltac:(lia)) as [Hstart Hend].
  rewrite Hend, Hstart.
  destruct (probe >=? psum hs (S (Z.to_nat mid))) eqn:E1.
  - apply Z.geb_le in E1.
    assert (Z.to_nat mid < t)%nat.
    { destruct (decide (Z.to_nat mid < t)%nat); [done|].
      pose proof (psum_mono (S t) (S (Z.to_nat mid)) ltac:(lia) ltac:(lia)). lia. }
    apply IH; lia.
  - rewrite Z.geb_leb in E1. apply Z.leb_gt in E1.
    destruct (probe <? psum hs (Z.to_nat mid)) eqn:E2.
    + apply Z.ltb_lt in E2.
      assert (t < Z.to_nat mid)%nat.
      { destruct (decide (t < Z.to_nat mid)%nat); [done|].
        pose proof (psum_mono (Z.to_nat mid) t ltac:(lia) ltac:(lia)). lia. }
      apply IH; lia.
    + apply Z.ltb_ge in E2.
      assert (Z.to_nat mid = t) as <-
        by (apply cover_unique; [lia | lia | lia | done]).
      by rewrite Z2Nat.id by lia.
Qed.

Lemma search_loop_before :
  probe < 0 -> (1 <= n)%nat ->
  forall fuel high,
    -1 <= high -> high < Z.of_nat n -> high + 1 < Z.of_nat fuel ->
    search_loop fuel s probe 0 high = Some 0.
Proof.
  intros Hp Hn1 fuel.
  induction fuel as [|fuel IH]; intros high Hlo Hhn Hfuel; [lia|].
  simpl.
  destruct (0 <=? high) eqn:E.
  - apply Z.leb_le in E.
    destruct (sar1_mid 0 high ltac:(lia) E ltac:(lia)) as [-> Hmid].
    set (mid := (0 + high) / 2) in *.
    destruct (read_mid mid ltac:(lia)) as [Hstart Hend].
    rewrite Hend, Hstart.
    pose proof (psum_mono 0 (Z.to_nat mid) ltac:(lia) ltac:(lia)) as M1.
    pose proof (psum_mono 0 (S (Z.to_nat mid)) ltac:(lia) ltac:(lia)) as M2.
    rewrite psum_0 in M1, M2.
    replace (probe >=? psum hs (S (Z.to_nat mid))) with false
      by (symmetry; rewrite Z.geb_leb; apply Z.leb_gt; lia).
    replace (probe <? psum hs (Z.to_nat mid)) with true
      by (symmetry; apply Z.ltb_lt; lia).
    apply IH; lia.
  - f_equal. unfold len. fold n. lia.
Qed.

Lemma search_loop_after :
  psum hs n <= probe -> (1 <= n)%nat ->
  forall fuel low,
    0 <= low -> low <= Z.of_nat n -> Z.of_nat n - low < Z.of_nat fuel ->
    search_loop fuel s probe low (Z.of_nat n - 1) = Some (Z.of_nat n - 1).
Proof.
  intros Hp Hn1 fuel.
  induction fuel as [|fuel IH]; intros low Hlo Hhn Hfuel; [lia|].
  simpl.
  destruct (low <=? Z.of_nat n - 1) eqn:E.
  - apply Z.leb_le in E.
    destruct (sar1_mid low (Z.of_nat n - 1) Hlo E ltac:(lia)) as [-> Hmid].
    set (mid := (low + (Z.of_nat n - 1)) / 2) in *.
    destruct (read_mid mid ltac:(lia)) as [Hstart Hend].
    rewrite Hend, Hstart.
    pose proof (psum_mono (S (Z.to_nat mid)) n ltac:(lia) ltac:(lia)) as M1.
    replace (probe >=? psum hs (S (Z.to_nat mid))) with true
      by (symmetry; apply Z.geb_le; lia).
    apply IH; lia.
  - apply Z.leb_gt in E. f_equal. unfold len. fold n. lia.
Qed.
End Search.

Lemma covers_psum (s : State) (probe : Z) (t : nat) :
  let n := length (groups s) in
  table_ok n (heights s) (offsets s) ->
  heights_positive n (heights s) ->
  (t < n)%nat ->
  covers s (Z.of_nat t) probe <->
  psum (heights s) t <= probe < psum (heights s) (S t).
Proof.
  intros n Hok Hpos Ht.
  destruct (table_entry s Hok Hpos t Ht) as (Ho & h & Hh & _ & Hs).
  unfold covers. rewrite !arr_get_z_nat, Ho, Hh, Hs. split.
  - intros (o' & h' & [= <-] & [= <-] & Hc). done.
  - intros Hc. by exists (psum (heights s) t), h.
Qed.

(** C2. On a table of [n >= 1] entries that satisfies the offset
    invariant with strictly positive heights, [findIndexByScrollTop]
    returns an index of the table; for a probe in [[0, totalHeight)] it is
    the one index whose extent [offsets[i] <= probe < offsets[i] +
    heights[i]] holds the probe; for a negative probe it is [0], and for
    a probe at or beyond [totalHeight] it is [n - 1].  [n <= 2^30] keeps
    [low + high] inside the 32-bit range of [>>]. *)
Theorem findIndexByScrollTop_correct (s : State) (probe T : Z) :
  let n := length (groups s) in
  (1 <= n)%nat -> Z.of_nat n <= 2 ^ 30 ->
  table_ok n (heights s) (offsets s) ->
  heights_positive n (heights s) ->
  totalHeight s = heights_sum (heights s) n ->
  totalHeight s = Num T ->
  exists i,
    findIndexByScrollTop s probe = Some i /\
    0 <= i < Z.of_nat n /\
    (probe < 0 -> i = 0) /\
    (T <= probe -> i = Z.of_nat n - 1) /\
    (0 <= probe < T ->
       covers s i probe /\
       forall j, 0 <= j < Z.of_nat n -> covers s j probe -> j = i).
Proof.
  intros n. subst n. set (n := length (groups s)).
  intros Hn1 Hn Hok Hpos Hsum HT.
  assert (psum (heights s) n = T) as HTn.
  { unfold psum. by rewrite <- Hsum, HT. }
  unfold findIndexByScrollTop, len. fold n.
  pose proof (psum_mono s Hok Hpos 0 n ltac:(lia) ltac:(lia)) as H0n.
  fold n in H0n. rewrite psum_0 in H0n.
  destruct (decide (probe < 0)) as [Hneg|Hnn].
  { exists 0. split.
    - apply (search_loop_before s probe Hn Hok Hpos Hneg Hn1); lia.
    - split; [lia|]. split; [done|]. split; intros; lia. }
  destruct (decide (T <= probe)) as [Hbig|Hin].
  { exists (Z.of_nat n - 1). split.
    - apply (search_loop_after s probe Hn Hok Hpos);
        [fold n; lia | done | lia..].
    - split; [lia|]. split; [lia|]. split; [done|]. intros; lia. }
  destruct (cover_exists s probe n ltac:(lia) ltac:(fold n; lia))
    as (t & Ht & Hc).
  exists (Z.of_nat t). split.
  - apply (search_loop_inside s probe Hn Hok Hpos t Ht Hc); lia.
  - split; [lia|]. split; [lia|]. split; [lia|].
    intros _. split.
    + by apply covers_psum.
    + intros j Hj Hcj.
      rewrite <- (Z2Nat.id j) in Hcj by lia.
      apply covers_psum in Hcj; [|done|done|fold n; lia].
      assert (Z.to_nat j = t) as <-
        by (apply (cover_unique s probe Hok Hpos); [fold n; lia | done..]).
      lia.
Qed.

Lemma findIndexByScrollTop_correct_witness :
  let s := st (world_of sample_dom [group_of 7; group_of 0; group_of 3]
                 [Num 411; Num 177; Num 177] [Num 0; Num 411; Num 588]
                 (Num 765)) in
  findIndexByScrollTop s 600 = Some 2 /\
  findIndexByScrollTop s (-5) = Some 0 /\
  findIndexByScrollTop s 765 = Some 2 /\
  exists i, findIndexByScrollTop s 411 = Some i /\ covers s i 411.
Proof.
  intros s.
  split; [reflexivity|]. split; [reflexivity|]. split; [reflexivity|].
  assert (table_ok 3 (heights s) (offsets s)) as Hok.
  { intros i Hi.
    destruct i as [|[|[|i]]]; [| | |lia]; eexists _, _; by vm_compute. }
  assert (heights_positive 3 (heights s)) as Hpos.
  { intros i Hi.
    destruct i as [|[|[|i]]]; [| | |lia]; eexists; by vm_compute. }
  destruct (findIndexByScrollTop_correct s 411 765 ltac:(simpl; lia)
    ltac:(by vm_compute) Hok Hpos eq_refl eq_refl)
    as (i & Hi & _ & _ & _ & Hin).
  exists i. split; [exact Hi|]. apply Hin. lia.
Defined.

(** * Viewer *)

Lemma renderViewerImage_st w : st (renderViewerImage w) = st w.
Proof.
  unfold renderViewerImage.
  destruct (viewerLoading (els w)), (viewerImage (els w)), (viewerIndex (els w));
    try done.
  by destruct (length (images (viewer (st w))) =? 0)%nat.
Qed.

Lemma nextImage_viewer w :
  images (viewer (st w)) <> [] ->
  images (viewer (st (nextImage w))) = images (viewer (st w)) /\
  index (viewer (st (nextImage w)))
    = js_rem (index (viewer (st w)) + 1) (len (images (viewer (st w)))).
Proof.
  intros Hne. unfold nextImage.
  destruct (images (viewer (st w))) as [|u us] eqn:E; [done|].
  simpl. rewrite renderViewerImage_st. simpl. by rewrite E.
Qed.

Lemma prevImage_viewer w :
  images (viewer (st w)) <> [] ->
  images (viewer (st (prevImage w))) = images (viewer (st w)) /\
  index (viewer (st (prevImage w)))
    = js_rem (index (viewer (st w)) - 1 + len (images (viewer (st w))))
        (len (images (viewer (st w)))).
Proof.
  intros Hne. unfold prevImage.
  destruct (images (viewer (st w))) as [|u us] eqn:E; [done|].
  simpl. rewrite renderViewerImage_st. simpl. by rewrite E.
Qed.

Lemma len_pos {A} (l : list A) : l <> [] -> 1 <= len l.
Proof. destruct l; [done|]. unfold len. simpl. lia. Qed.

Lemma nextImage_iter w (k : nat) :
  images (viewer (st w)) <> [] ->
  0 <= index (viewer (st w)) < len (images (viewer (st w))) ->
  images (viewer (st (Nat.iter k nextImage w))) = images (viewer (st w)) /\
  index (viewer (st (Nat.iter k nextImage w)))
    = (index (viewer (st w)) + Z.of_nat k) mod len (images (viewer (st w))).
Proof.
  intros Hne Hi. pose proof (len_pos _ Hne) as HN.
  induction k as [|k [IHim IHix]].
  - simpl. split; [done|]. rewrite Z.add_0_r, Z.mod_small; lia.
  - rewrite Nat.iter_succ.
    destruct (nextImage_viewer (Nat.iter k nextImage w)) as [Him Hix];
      [by rewrite IHim|].
    rewrite Him, Hix, IHim, IHix. split; [done|].
    unfold js_rem.
    pose proof (Z.mod_pos_bound (index (viewer (st w)) + Z.of_nat k)
      (len (images (viewer (st w)))) ltac:(lia)).
    rewrite Z.rem_mod_nonneg by lia.
    rewrite Zplus_mod_idemp_l. f_equal. lia.
Qed.

Lemma prevImage_iter w (k : nat) :
  images (viewer (st w)) <> [] ->
  0 <= index (viewer (st w)) < len (images (viewer (st w))) ->
  images (viewer (st (Nat.iter k prevImage w))) = images (viewer (st w)) /\
  index (viewer (st (Nat.iter k prevImage w)))
    = (index (viewer (st w)) - Z.of_nat k) mod len (images (viewer (st w))).
Proof.
  intros Hne Hi. pose proof (len_pos _ Hne) as HN.
  induction k as [|k [IHim IHix]].
  - simpl. split; [done|]. rewrite Z.sub_0_r, Z.mod_small; lia.
  - rewrite Nat.iter_succ.
    destruct (prevImage_viewer (Nat.iter k prevImage w)) as [Him Hix];
      [by rewrite IHim|].
    rewrite Him, Hix, IHim, IHix. split; [done|].
    unfold js_rem.
    set (N := len (images (viewer (st w)))) in *.
    set (i := index (viewer (st w))) in *.
    pose proof (Z.mod_pos_bound (i - Z.of_nat k) N ltac:(lia)).
    rewrite Z.rem_mod_nonneg by lia.
    replace ((i - Z.of_nat k) mod N - 1 + N)
      with ((i - Z.of_nat k) mod N + (N - 1)) by lia.
    rewrite Zplus_mod_idemp_l.
    replace (i - Z.of_nat k + (N - 1)) with (i - Z.of_nat (S k) + 1 * N) by lia.
    by rewrite Z.mod_add by lia.
Qed.

(** C8. On a viewer with [N >= 1] images and an index in [[0, N)],
    [nextImage] sets the index to [(index + 1) mod N] and [prevImage] to
    [(index - 1 + N) mod N]; [N] applications of either bring the index
    back to where it started; with one image each keeps the index; with
    no image both leave the page as it is. *)
Theorem viewer_navigation_cycle (w : World) :
  let v := viewer (st w) in
  let N := len (images v) in
  (images v = [] -> nextImage w = w /\ prevImage w = w) /\
  (1 <= N -> 0 <= index v < N ->
     index (viewer (st (nextImage w))) = (index v + 1) mod N /\
     index (viewer (st (prevImage w))) = (index v - 1 + N) mod N /\
     index (viewer (st (Nat.iter (length (images v)) nextImage w))) = index v /\
     index (viewer (st (Nat.iter (length (images v)) prevImage w))) = index v /\
     (N = 1 ->
        index (viewer (st (nextImage w))) = index v /\
        index (viewer (st (prevImage w))) = index v)).
Proof.
  intros v N. split.
  { intros Hnil. unfold nextImage, prevImage. fold v. by rewrite Hnil. }
  intros HN Hi.
  assert (images v <> []) as Hne.
  { intros E. subst N. rewrite E in HN. unfold len in HN. simpl in HN. lia. }
  destruct (nextImage_viewer w Hne) as [_ Hn].
  destruct (prevImage_viewer w Hne) as [_ Hp].
  destruct (nextImage_iter w (length (images v)) Hne Hi) as [_ Hni].
  destruct (prevImage_iter w (length (images v)) Hne Hi) as [_ Hpi].
  fold v in Hn, Hp, Hni, Hpi. fold N in Hn, Hp, Hni, Hpi.
  unfold js_rem in Hn, Hp. rewrite Z.rem_mod_nonneg in Hn, Hp by lia.
  assert (Z.of_nat (length (images v)) = N) as EN by done.
  rewrite EN in Hni, Hpi.
  split; [done|]. split; [done|]. split.
  { rewrite Hni. replace (index v + N) with (index v + 1 * N) by lia.
    rewrite Z.mod_add by lia. apply Z.mod_small. lia. }
  split.
  { rewrite Hpi. replace (index v - N) with (index v + (-1) * N) by lia.
    rewrite Z.mod_add by lia. apply Z.mod_small. lia. }
  intros H1. rewrite Hn, Hp, H1.
  assert (index v = 0) as -> by lia. done.
Qed.

Lemma viewer_navigation_cycle_witness :
  let w := openViewer ["a"; "b"; "c"]%string 0 (world_of sample_dom [] [] [] (Num 0)) in
  1 <= len (images (viewer (st w))) /\
  0 <= index (viewer (st w)) < len (images (viewer (st w))) /\
  index (viewer (st (nextImage w))) = 1 /\
  index (viewer (st (nextImage (nextImage w)))) = 2 /\
  index (viewer (st (nextImage (nextImage (nextImage w))))) = 0 /\
  index (viewer (st (prevImage w))) = (0 - 1 + 3) mod 3.
Proof.
  intros w.
  assert (1 <= len (images (viewer (st w)))) as H1 by (by vm_compute).
  assert (0 <= index (viewer (st w)) < len (images (viewer (st w)))) as H2
    by (by vm_compute).
  split; [exact H1|]. split; [exact H2|].
  destruct (viewer_navigation_cycle w) as [_ Hc].
  destruct (Hc H1 H2) as (Hn & Hp & _).
  split; [rewrite Hn; reflexivity|].
  split; [reflexivity|]. split; [reflexivity|]. exact Hp.
Defined.

(** C6, as the claim states it, fails: the viewer opens on the first of
    three images, the user moves to the second while the first is still
    decoding, and the first decode then completes: the first image is
    displayed although the viewer is at index 1. *)
Lemma stale_image_load_is_rendered :
  let w0 := world_of sample_dom [album] [Num 177] [Num 0] (Num 177) in
  let w1 := step (ThumbClick 0 0) w0 in
  let w2 := step NextClick w1 in
  let w3 := step (ImageLoaded 1) w2 in
  find_load 1 (loads w2)
    = Some (mkImageLoad 1 (Some "https://oss.example/a.jpg"%string) 0) /\
  isOpen (viewer (st w2)) = true /\
  index (viewer (st w2)) = 1 /\
  index (viewer (st w3)) = 1 /\
  viewerImage (els w3)
    = Some (mkImageEl "https://oss.example/a.jpg" false) /\
  url_at (images (viewer (st w3))) (index (viewer (st w3)))
    = Some "https://oss.example/b.jpg"%string.
Proof. vm_compute. repeat split; reflexivity. Qed.

(** C6, amended. A completed image load is rendered exactly when the
    viewer is open at the moment it completes: while the viewer is closed
    the completion changes nothing on the page, and while it is open the
    displayed image becomes the load's URL whatever the current index
    is. *)
Theorem onload_renders_iff_open (l : ImageLoad) (w : World) (im : ImageEl) :
  viewerImage (els w) = Some im ->
  (isOpen (viewer (st w)) = false -> onload l w = w) /\
  (isOpen (viewer (st w)) = true ->
     viewerImage (els (onload l w))
       = Some (mkImageEl (dom_string (l_url l)) false) /\
     st (onload l w) = st w).
Proof.
  intros Him. unfold onload. split; intros Hopen; rewrite Hopen; simpl.
  - done.
  - rewrite Him. simpl.
    destruct (viewerLoading (els w)); simpl; by rewrite ?Him.
Qed.

Lemma onload_renders_iff_open_witness :
  let w0 := world_of sample_dom [album] [Num 177] [Num 0] (Num 177) in
  let w1 := step (ThumbClick 0 0) w0 in
  let l := mkImageLoad 1 (Some "https://oss.example/a.jpg"%string) 0 in
  viewerImage (els w1) = Some (mkImageEl "" true) /\
  onload l (closeViewer w1) = closeViewer w1 /\
  viewerImage (els (onload l w1))
    = Some (mkImageEl "https://oss.example/a.jpg" false).
Proof.
  intros w0 w1 l.
  split; [reflexivity|]. split.
  - destruct (onload_renders_iff_open l (closeViewer w1) (mkImageEl "" true)
      eq_refl) as [Hclosed _].
    apply Hclosed. reflexivity.
  - destruct (onload_renders_iff_open l w1 (mkImageEl "" true) eq_refl)
      as [_ Hopen].
    destruct (Hopen eq_refl) as [Hsrc _]. exact Hsrc.
Defined.

(** * Fetch controller *)

Lemma layout_loop_heights e gs : forall i hs os k g,
  gs !! k = Some g ->
  arr_get (layout_loop e i gs hs os).1 (i + k) = Num (computeItemHeight e g).
Proof.
  induction gs as [|g0 gs IH]; intros i hs os k g Hk; [done|].
  destruct k as [|k]; simpl in *.
  - injection Hk as ->. rewrite Nat.add_0_r.
    destruct (layout_loop_frame e gs (S i)
      (arr_set hs i (Num (computeItemHeight e g)))
      (arr_set os i
         (if (i =? 0)%nat then Num 0
          else js_add (arr_get os (i - 1))
                 (arr_get (arr_set hs i (Num (computeItemHeight e g))) (i - 1))))
      i ltac:(lia)) as [-> _].
    apply arr_get_set_eq.
  - replace (i + S k)%nat with (S i + k)%nat by lia. by apply IH.
Qed.

Lemma arr_set_id a i z : arr_get a i = Num z -> arr_set a i (Num z) = a.
Proof.
  unfold arr_get, arr_set. intros H.
  destruct (a !! i) as [v|] eqn:E; [|done]. simpl in H. subst v.
  replace (i <? length a)%nat with true
    by (symmetry; apply Nat.ltb_lt; by eapply lookup_lt_Some).
  by apply list_insert_id.
Qed.

(** On a table that already is the layout of the groups, the loop
    rewrites every entry with the value it holds. *)
Lemma layout_loop_id e gs : forall i hs os,
  (forall k g, gs !! k = Some g ->
     arr_get hs (i + k) = Num (computeItemHeight e g)) ->
  table_ok (i + length gs) hs os ->
  layout_loop e i gs hs os = (hs, os).
Proof.
  induction gs as [|g gs IH]; intros i hs os Hh Hok; [done|].
  simpl.
  pose proof (Hh 0%nat g eq_refl) as Hi. rewrite Nat.add_0_r in Hi.
  rewrite (arr_set_id _ _ _ Hi).
  destruct (Hok i ltac:(simpl; lia)) as (h & o & _ & Ho & Hrec).
  assert ((if (i =? 0)%nat then Num 0
           else js_add (arr_get os (i - 1)) (arr_get hs (i - 1))) = Num o) as ->.
  { destruct i as [|j]; simpl; [by subst o|].
    by replace (j - 0)%nat with j by lia. }
  rewrite (arr_set_id _ _ _ Ho).
  apply IH.
  - intros k g' Hk. replace (S i + k)%nat with (i + S k)%nat by lia.
    by apply Hh.
  - by replace (S i + length gs)%nat with (i + length (g :: gs))%nat
      by (simpl; lia).
Qed.

(** A full recomputation leaves the layout of the groups at the current
    container width. *)
Lemma recomputeLayout_0_in_sync w :
  in_sync (els w) (st (recomputeLayout 0 w)) /\
  groups (st (recomputeLayout 0 w)) = groups (st w).
Proof.
  assert (groups (st (recomputeLayout 0 w)) = groups (st w)) as Hg
    by (by rewrite recomputeLayout_st).
  split; [|done].
  destruct (recomputeLayout_table 0 w) as [Hok Htot].
  { intros i Hi. simpl in Hi. lia. }
  unfold in_sync. rewrite Hg. split; [done|]. split; [|done].
  intros i g Hi. rewrite recomputeLayout_st. simpl.
  by apply (layout_loop_heights (els w) (groups (st w)) 0).
Qed.

(** A full recomputation of a layout that is current changes nothing. *)
Lemma recomputeLayout_0_fixed w :
  in_sync (els w) (st w) -> st (recomputeLayout 0 w) = st w.
Proof.
  intros (Hok & Hh & Htot).
  rewrite recomputeLayout_st. simpl.
  rewrite (layout_loop_id (els w) (groups (st w)) 0); [|done|done].
  simpl. unfold len.
  destruct (st w) as [? ? ? ? ? ? ? gs hs os th ? ? ?]. simpl in *.
  unfold with_totalHeight, with_offsets, with_heights. simpl. f_equal.
  rewrite Htot.
  destruct (length gs) as [|m] eqn:E; [done|].
  replace (0 <=? Z.of_nat (S m) - 1) with true by (symmetry; apply Z.leb_le; lia).
  replace (Z.of_nat (S m) - 1) with (Z.of_nat m) by lia.
  rewrite !arr_get_z_nat. simpl.
  by destruct (table_ok_sum _ _ _ Hok m ltac:(lia)) as [-> _].
Qed.

(** [in_sync] reads the container width and the list content only. *)
Lemma in_sync_ext e e' s s' :
  scroll e = scroll e' ->
  groups s = groups s' -> heights s = heights s' ->
  offsets s = offsets s' -> totalHeight s = totalHeight s' ->
  in_sync e s -> in_sync e' s'.
Proof.
  unfold in_sync, computeItemHeight, item_thumb, container_width.
  intros -> -> -> -> ->. done.
Qed.

Lemma showToast_st m t w : st (showToast m t w) = st w.
Proof. unfold showToast. by destruct (toast (els w)). Qed.

Lemma setLoading_st b w : st (setLoading b w) = with_isLoading b (st w).
Proof. unfold setLoading. simpl. by destruct (spinner (els w)). Qed.

Lemma setEmptyVisible_st b w : st (setEmptyVisible b w) = st w.
Proof. unfold setEmptyVisible. by destruct (empty (els w)). Qed.

Lemma setNoMoreVisible_st b w : st (setNoMoreVisible b w) = st w.
Proof. unfold setNoMoreVisible. by destruct (noMore (els w)). Qed.

Lemma setLoading_rest b w :
  fetches (setLoading b w) = fetches w /\ next_id (setLoading b w) = next_id w.
Proof. unfold setLoading. simpl. by destruct (spinner (els w)). Qed.

Lemma setEmptyVisible_rest b w :
  fetches (setEmptyVisible b w) = fetches w /\
  next_id (setEmptyVisible b w) = next_id w.
Proof. unfold setEmptyVisible. by destruct (empty (els w)). Qed.

Lemma setNoMoreVisible_rest b w :
  fetches (setNoMoreVisible b w) = fetches w /\
  next_id (setNoMoreVisible b w) = next_id w.
Proof. unfold setNoMoreVisible. by destruct (noMore (els w)). Qed.

Lemma cancelInFlight_st w :
  st (cancelInFlight w) = with_abortController None (st w).
Proof.
  unfold cancelInFlight.
  destruct (abortController (st w)) eqn:E; [done|].
  destruct (st w). simpl in *. by subst.
Qed.

Lemma cancelInFlight_next_id w : next_id (cancelInFlight w) = next_id w.
Proof. unfold cancelInFlight. by destruct (abortController (st w)). Qed.

Lemma cancelInFlight_pageNum v w :
  fetches (cancelInFlight (on_st (with_pageNum v) w)) = fetches (cancelInFlight w).
Proof. unfold cancelInFlight. simpl. by destruct (abortController (st w)). Qed.

(** Outside a request, with a category, [loadPage] issues one request
    that closes over the current list content. *)
Lemma loadPage_issues (reset : bool) (w : World) :
  isLoading (st w) = false -> categoryCode (st w) <> ""%string ->
  exists f,
    fetches (loadPage reset w) = fetches (cancelInFlight w) ++ [f] /\
    f_id f = next_id w /\ f_reset f = reset /\ f_aborted f = false /\
    f_url f = buildApiUrl (if reset then with_pageNum 1 (st w) else st w) /\
    preserveGroups f = groups (st w) /\
    preserveHeights f = heights (st w) /\
    preserveOffsets f = offsets (st w) /\
    preserveTotalHeight f = totalHeight (st w) /\
    preserveTotal f = total (st w) /\
    groups (st (loadPage reset w)) = groups (st w) /\
    total (st (loadPage reset w)) = total (st w) /\
    isLoading (st (loadPage reset w)) = true /\
    abortController (st (loadPage reset w)) = Some (next_id w) /\
    next_id (loadPage reset w) = S (next_id w) /\
    st (loadPage reset w)
      = with_isLoading true (with_abortController (Some (next_id w))
          (if reset then with_pageNum 1 (st w) else st w)).
Proof.
  intros Hl Hc. unfold loadPage. rewrite Hl.
  apply String.eqb_neq in Hc. rewrite Hc. cbv zeta.
  set (w0 := if reset then on_st (with_pageNum 1) w else w).
  set (w1 := cancelInFlight w0).
  assert (next_id w1 = next_id w) as Hid.
  { subst w1 w0. rewrite cancelInFlight_next_id. by destruct reset. }
  assert (fetches w1 = fetches (cancelInFlight w)) as Hf.
  { subst w1 w0. destruct reset; [apply cancelInFlight_pageNum|done]. }
  assert (st w1 = with_abortController None
            (if reset then with_pageNum 1 (st w) else st w)) as Hst.
  { subst w1 w0. rewrite cancelInFlight_st. by destruct reset. }
  eexists.
  cbn [fetches with_fetches st next_id f_id f_reset f_aborted f_url
       preserveGroups preserveHeights preserveOffsets preserveTotalHeight
       preserveTotal].
  rewrite !setEmptyVisible_st, !setNoMoreVisible_st, !setLoading_st.
  rewrite (proj1 (setEmptyVisible_rest _ _)), (proj1 (setNoMoreVisible_rest _ _)),
    (proj1 (setLoading_rest _ _)).
  rewrite (proj2 (setEmptyVisible_rest _ _)), (proj2 (setNoMoreVisible_rest _ _)),
    (proj2 (setLoading_rest _ _)).
  cbn [fetches with_fetches st next_id on_st with_next_id].
  rewrite Hid, Hf, Hst.
  split; [reflexivity|].
  destruct reset; by destruct (st w).
Qed.

Lemma settle_failure (f : Fetch) (r : Response) (w : World) :
  f_aborted f = false -> is_failure r = true ->
  exists message, settle f r w = on_finally (on_rejected f message w).
Proof.
  intros Ha Hr. unfold settle. rewrite Ha.
  destruct r as [ok [d|]|m]; simpl in Hr.
  - rewrite Hr. by eexists.
  - by eexists.
  - by eexists.
Qed.

Lemma on_finally_st w :
  st (on_finally w) = with_abortController None (with_isLoading false (st w)).
Proof.
  unfold on_finally. cbn [st on_st]. rewrite setLoading_st.
  by destruct (st w).
Qed.

Lemma on_rejected_st (f : Fetch) (message : option string) (w : World) :
  st (on_rejected f message w)
  = st (recomputeLayout 0
         (on_st (fun s =>
            with_total (preserveTotal f)
              (with_totalHeight (preserveTotalHeight f)
                (with_offsets (preserveOffsets f)
                  (with_heights (preserveHeights f)
                    (with_groups (preserveGroups f) s))))) w)).
Proof. unfold on_rejected. by rewrite showToast_st. Qed.

(** C3, as the claim states it, fails: the first page is laid out on a
    375px container, the container becomes 800px wide, a scroll issues a
    "load more" request, and the request fails.  The error handler
    recomputes the layout from index 0 at the current width, so [heights]
    and [totalHeight] differ from their values when the request was
    issued. *)
Lemma failed_load_more_changes_heights :
  let w1 := run [FetchSettled 0 (page 25 [group_of 7]); Resize 800 600; Scroll 0]
              (init sample_config) in
  let w2 := step (FetchSettled 1 (Rejected (Some "Failed to fetch"%string))) w1 in
  (exists f, fetches w1 = [f] /\ f_id f = 1%nat /\ f_reset f = false /\
             f_aborted f = false) /\
  heights (st w1) = [Num 411] /\ totalHeight (st w1) = Num 411 /\
  groups (st w2) = groups (st w1) /\
  heights (st w2) = [Num 834] /\ totalHeight (st w2) = Num 834 /\
  heights (st w2) <> heights (st w1).
Proof.
  vm_compute. split; [|repeat split; try reflexivity; discriminate].
  eexists. repeat split; reflexivity.
Qed.

(** C3, amended. When a "load more" request fails with an error other
    than an abort, then after the error handler has run, whatever happened
    on the page in between, [groups] and [total] equal their values at
    the moment the request was issued, and [heights], [offsets] and
    [totalHeight] are the layout of those groups at the container width
    of that moment; they equal their values at the moment the request was
    issued whenever those already were that layout. *)
Theorem failed_load_more_rolls_back (w w2 : World) (r : Response) :
  isLoading (st w) = false -> categoryCode (st w) <> ""%string ->
  is_failure r = true ->
  exists f,
    fetches (loadPage false w) = fetches (cancelInFlight w) ++ [f] /\
    f_reset f = false /\ f_aborted f = false /\
    let s3 := st (settle f r w2) in
    groups s3 = groups (st w) /\ total s3 = total (st w) /\
    in_sync (els w2) s3 /\
    (in_sync (els w2) (st w) ->
       heights s3 = heights (st w) /\ offsets s3 = offsets (st w) /\
       totalHeight s3 = totalHeight (st w)).
Proof.
  intros Hl Hc Hr.
  destruct (loadPage_issues false w Hl Hc)
    as (f & Hf & _ & Hreset & Hab & _ & Hg & Hh & Ho & Hth & Ht & _).
  exists f. split; [done|]. split; [done|]. split; [done|].
  destruct (settle_failure f r w2 Hab Hr) as [m ->].
  rewrite on_finally_st, on_rejected_st.
  set (wr := on_st _ w2).
  assert (els wr = els w2) as Hels by reflexivity.
  assert (groups (st wr) = groups (st w) /\ total (st wr) = total (st w) /\
          heights (st wr) = heights (st w) /\ offsets (st wr) = offsets (st w) /\
          totalHeight (st wr) = totalHeight (st w))
    as (Hg' & Ht' & Hh' & Ho' & Hth').
  { subst wr. cbn [st on_st]. rewrite <- Hg, <- Ht, <- Hh, <- Ho, <- Hth.
    by destruct (st w2). }
  destruct (recomputeLayout_0_in_sync wr) as [Hsync Hgr].
  assert (total (st (recomputeLayout 0 wr)) = total (st wr)) as Htr
    by (by rewrite recomputeLayout_st).
  pose proof (recomputeLayout_0_fixed wr) as Hfix.
  revert Hsync Hgr Htr Hfix.
  generalize (st (recomputeLayout 0 wr)) as s3.
  rewrite Hels. revert Hg' Ht' Hh' Ho' Hth'.
  generalize (st wr) as sr. clear wr Hels.
  intros sr Hg' Ht' Hh' Ho' Hth' s3 Hsync Hgr Htr Hfix.
  destruct s3 as [? ? ? ? ? ? t3 g3 h3 o3 th3 ? ? ?].
  cbn [groups total heights offsets totalHeight with_abortController
       with_isLoading] in *.
  split; [congruence|]. split; [congruence|]. split.
  { revert Hsync. by apply in_sync_ext. }
  intros Hin.
  assert (in_sync (els w2) sr) as Hin' by (revert Hin; by apply in_sync_ext).
  specialize (Hfix Hin'). subst sr. simpl in *. done.
Qed.

Lemma failed_load_more_rolls_back_witness :
  let w := run [FetchSettled 0 (page 25 [group_of 7])] (init sample_config) in
  let r := Rejected (Some "Failed to fetch"%string) in
  isLoading (st w) = false /\
  categoryCode (st w) <> ""%string /\
  is_failure r = true /\
  in_sync (els (loadPage false w)) (st w) /\
  exists f,
    fetches (loadPage false w) = [f] /\
    groups (st (settle f r (loadPage false w))) = [group_of 7] /\
    total (st (settle f r (loadPage false w))) = 25 /\
    heights (st (settle f r (loadPage false w))) = [Num 411].
Proof.
  intros w r.
  assert (isLoading (st w) = false) as H1 by (by vm_compute).
  assert (categoryCode (st w) <> ""%string) as H2 by discriminate.
  assert (in_sync (els (loadPage false w)) (st w)) as H3.
  { split; [|split].
    - intros i Hi. destruct i as [|i]; [|simpl in Hi; lia].
      exists 411, 0. by vm_compute.
    - intros i g Hi. destruct i as [|i]; [|done].
      injection Hi as <-. by vm_compute.
    - by vm_compute. }
  split; [exact H1|]. split; [exact H2|]. split; [by vm_compute|].
  split; [exact H3|].
  destruct (failed_load_more_rolls_back w (loadPage false w) r H1 H2 eq_refl)
    as (f & Hf & _ & _ & Hg & Ht & _ & Hsame).
  exists f. split; [exact Hf|]. split; [exact Hg|]. split; [exact Ht|].
  destruct (Hsame H3) as [Hh _]. exact Hh.
Defined.

Lemma on_finally_rest w :
  fetches (on_finally w) = fetches w /\ next_id (on_finally w) = next_id w.
Proof.
  unfold on_finally. cbn [fetches next_id on_st].
  by destruct (setLoading_rest false w) as [-> ->].
Qed.

Lemma recomputeLayout_groups k w :
  groups (st (recomputeLayout k w)) = groups (st w).
Proof. by rewrite recomputeLayout_st. Qed.

Lemma recomputeLayout_total k w :
  total (st (recomputeLayout k w)) = total (st w).
Proof. by rewrite recomputeLayout_st. Qed.

Lemma recomputeLayout_isLoading k w :
  isLoading (st (recomputeLayout k w)) = isLoading (st w).
Proof. by rewrite recomputeLayout_st. Qed.

Lemma recomputeLayout_categoryCode k w :
  categoryCode (st (recomputeLayout k w)) = categoryCode (st w).
Proof. by rewrite recomputeLayout_st. Qed.

Lemma recomputeLayout_abortController k w :
  abortController (st (recomputeLayout k w)) = abortController (st w).
Proof. by rewrite recomputeLayout_st. Qed.

Lemma recomputeLayout_pageSize k w :
  pageSize (st (recomputeLayout k w)) = pageSize (st w).
Proof. by rewrite recomputeLayout_st. Qed.

Lemma recomputeLayout_fetches k w : fetches (recomputeLayout k w) = fetches w.
Proof. by destruct (recomputeLayout_rest k w) as (_ & _ & ? & _). Qed.

Lemma recomputeLayout_next_id k w : next_id (recomputeLayout k w) = next_id w.
Proof. by destruct (recomputeLayout_rest k w) as (_ & _ & _ & _ & ?). Qed.

Create Rewrite HintDb proj.

#[local] Hint Rewrite recomputeLayout_groups recomputeLayout_total
  recomputeLayout_isLoading recomputeLayout_categoryCode
  recomputeLayout_abortController recomputeLayout_pageSize
  recomputeLayout_fetches recomputeLayout_next_id setEmptyVisible_st setNoMoreVisible_st
  setLoading_st showToast_st : proj.

(** What a successful response does to the list content. *)
Lemma on_fulfilled_proj (f : Fetch) (d : Data) (w : World) :
  let list := match d_list d with Some l => l | None => [] end in
  let w' := on_fulfilled f d w in
  groups (st w') = (if f_reset f then list else groups (st w) ++ list) /\
  total (st w') = d_total d /\
  isLoading (st w') = isLoading (st w) /\
  categoryCode (st w') = categoryCode (st w) /\
  abortController (st w') = abortController (st w) /\
  pageSize (st w') = pageSize (st w) /\
  fetches w' = fetches w /\ next_id w' = next_id w.
Proof.
  intros list w'. subst w'. unfold on_fulfilled. cbv zeta. fold list.
  match goal with
  | |- context [if total (st ?x) =? 0 then _ else _] => set (wA := x)
  end.
  assert (groups (st wA) = (if f_reset f then list else groups (st w) ++ list) /\
          total (st wA) = d_total d /\
          isLoading (st wA) = isLoading (st w) /\
          categoryCode (st wA) = categoryCode (st w) /\
          abortController (st wA) = abortController (st w) /\
          pageSize (st wA) = pageSize (st w) /\
          fetches wA = fetches w /\ next_id wA = next_id w) as HA.
  { subst wA. cbn [els on_st].
    destruct (f_reset f); [destruct (scroll (els w))|];
      autorewrite with proj; cbn [st on_st on_els fetches next_id];
      by destruct (st w). }
  clearbody wA.
  destruct HA as (Hg & Ht & Hl & Hc & Ha & Hp & Hf & Hn).
  set (wB := if total (st wA) =? 0 then setEmptyVisible true wA else wA).
  assert (st wB = st wA /\ fetches wB = fetches wA /\ next_id wB = next_id wA)
    as (HBs & HBf & HBn).
  { subst wB. destruct (total (st wA) =? 0); [|done].
    rewrite setEmptyVisible_st.
    by destruct (setEmptyVisible_rest true wA) as [-> ->]. }
  clearbody wB.
  destruct (isAllLoaded (st wB)).
  - rewrite setNoMoreVisible_st.
    destruct (setNoMoreVisible_rest true wB) as [-> ->].
    rewrite HBs, HBf, HBn. done.
  - cbn [st on_st fetches next_id]. rewrite HBs, HBf, HBn.
    by destruct (st wA).
Qed.

Lemma step_settles (w : World) (id : nat) (r : Response) (f : Fetch) :
  fetches w = [f] -> f_id f = id ->
  step (FetchSettled id r) w = settle f r (with_fetches [] w).
Proof.
  intros Hf Hid. unfold step, find_fetch. rewrite Hf. simpl.
  rewrite decide_True by done. simpl.
  rewrite filter_cons_False by (intros H; by apply H).
  done.
Qed.

(** One request issued outside any other and answered with a page. *)
Lemma fetch_cycle (reset : bool) (w : World) (t : Z) (l : list Group) :
  isLoading (st w) = false -> categoryCode (st w) <> ""%string ->
  abortController (st w) = None -> fetches w = [] ->
  let w' := step (FetchSettled (next_id w) (page t l)) (loadPage reset w) in
  isLoading (st w') = false /\
  categoryCode (st w') = categoryCode (st w) /\
  abortController (st w') = None /\
  fetches w' = [] /\
  next_id w' = S (next_id w) /\
  groups (st w') = (if reset then l else groups (st w) ++ l) /\
  total (st w') = t /\
  pageSize (st w') = pageSize (st w).
Proof.
  intros Hl Hc Ha Hf w'.
  destruct (loadPage_issues reset w Hl Hc)
    as (f & Hfs & Hid & Hreset & Hab & _ & _ & _ & _ & _ & _ & Hg & _ & _ & _
        & Hn & Hst).
  assert (fetches (loadPage reset w) = [f]) as Hfs'.
  { rewrite Hfs. unfold cancelInFlight. by rewrite Ha, Hf. }
  subst w'. rewrite (step_settles _ _ _ f Hfs' Hid).
  unfold settle, page. rewrite Hab. cbn [negb orb d_success_false].
  set (d := mkData false None t (Some l)).
  set (wl := with_fetches [] (loadPage reset w)).
  assert (st wl = st (loadPage reset w)) as Hwl by done.
  assert (next_id wl = next_id (loadPage reset w)) as Hwn by done.
  assert (fetches wl = []) as Hwf by done.
  clearbody wl.
  destruct (on_fulfilled_proj f d wl)
    as (Hg' & Ht' & Hl' & Hc' & _ & Hp' & Hf' & Hn').
  destruct (on_finally_rest (on_fulfilled f d wl)) as [-> ->].
  rewrite on_finally_st.
  cbn [isLoading categoryCode abortController groups total pageSize
       with_abortController with_isLoading].
  rewrite Hc', Hf', Hn', Hg', Ht', Hp', Hreset, Hwl, Hwn, Hwf, Hn, Hst.
  subst d. cbn [d_list d_total].
  repeat split; try done; destruct reset; by destruct (st w).
Qed.

Lemma isAllLoaded_spec (s : State) :
  isAllLoaded s = true <-> 0 < total s /\ total s <= len (groups s).
Proof.
  unfold isAllLoaded. rewrite andb_true_iff, Z.ltb_lt, Z.leb_le. done.
Qed.

(** C4, as the claim states it, fails: on the initial state the group
    list is empty and [total] is 0, so [groups.length === total], yet
    [isAllLoaded()] is false. *)
Lemma all_loaded_false_at_zero_total :
  let s := initial_state sample_config in
  0 <= total s /\ len (groups s) = total s /\ isAllLoaded s = false.
Proof. vm_compute. repeat split; discriminate. Qed.

(** C4, amended. The all-loaded condition holds exactly when [total > 0]
    and [groups.length >= total]; while [groups.length <= total] that
    is when [total > 0] and [groups.length === total], and it does not
    hold for [total = 0].  With page size 10 and a server total of 25,
    after three successful fetches (10, 10 and 5 groups) [groups.length]
    is 25 and the condition holds, and a further scroll signal, whatever
    the scroll position, changes no state and issues no request. *)
Theorem all_loaded_condition :
  (forall s, isAllLoaded s = true <-> 0 < total s /\ total s <= len (groups s)) /\
  (forall s, len (groups s) <= total s ->
     (isAllLoaded s = true <-> 0 < total s /\ len (groups s) = total s)) /\
  (forall s, total s = 0 -> isAllLoaded s = false) /\
  (forall c l1 l2 l3,
     data_category_code c <> ""%string ->
     length l1 = 10%nat -> length l2 = 10%nat -> length l3 = 5%nat ->
     let w1 := step (FetchSettled 0 (page 25 l1)) (init c) in
     let w2 := step (FetchSettled 1 (page 25 l2)) (loadPage false w1) in
     let w3 := step (FetchSettled 2 (page 25 l3)) (loadPage false w2) in
     pageSize (st w3) = 10 /\
     groups (st w3) = l1 ++ l2 ++ l3 /\
     len (groups (st w3)) = 25 /\
     isAllLoaded (st w3) = true /\
     forall top,
       st (step (Scroll top) w3) = st w3 /\
       fetches (step (Scroll top) w3) = [] /\
       next_id (step (Scroll top) w3) = next_id w3).
Proof.
  split; [exact isAllLoaded_spec|]. split.
  { intros s Hle. rewrite isAllLoaded_spec. lia. }
  split.
  { intros s H0. unfold isAllLoaded. by rewrite H0. }
  intros c l1 l2 l3 Hc H1 H2 H3. cbv zeta. unfold init.
  pose proof (fetch_cycle true (mkWorld (initial_state c) (dom c) [] [] 0)
    25 l1 eq_refl Hc eq_refl eq_refl) as F1.
  cbv zeta in F1. cbn [next_id] in F1.
  set (w1 := step (FetchSettled 0 (page 25 l1)) _) in *.
  destruct F1 as (Hl1 & Hc1 & Ha1 & Hf1 & Hn1 & Hg1 & Ht1 & Hp1).
  assert (categoryCode (st w1) <> ""%string) as Hc1' by (by rewrite Hc1).
  pose proof (fetch_cycle false w1 25 l2 Hl1 Hc1' Ha1 Hf1) as F2.
  cbv zeta in F2. rewrite Hn1 in F2.
  set (w2 := step (FetchSettled 1 (page 25 l2)) _) in *.
  destruct F2 as (Hl2 & Hc2 & Ha2 & Hf2 & Hn2 & Hg2 & Ht2 & Hp2).
  assert (categoryCode (st w2) <> ""%string) as Hc2' by (by rewrite Hc2).
  pose proof (fetch_cycle false w2 25 l3 Hl2 Hc2' Ha2 Hf2) as F3.
  cbv zeta in F3. rewrite Hn2 in F3.
  set (w3 := step (FetchSettled 2 (page 25 l3)) _) in *.
  destruct F3 as (Hl3 & Hc3 & Ha3 & Hf3 & Hn3 & Hg3 & Ht3 & Hp3).
  clearbody w3. clearbody w2. clearbody w1.
  assert (groups (st w3) = l1 ++ l2 ++ l3) as Hg.
  { rewrite Hg3, Hg2, Hg1. by rewrite <- app_assoc. }
  assert (len (groups (st w3)) = 25) as Hlen.
  { rewrite Hg. unfold len. rewrite !length_app, H1, H2, H3. done. }
  assert (isAllLoaded (st w3) = true) as Hall.
  { apply isAllLoaded_spec. lia. }
  split; [by rewrite Hp3, Hp2, Hp1|].
  split; [done|]. split; [done|]. split; [done|].
  intros top. unfold step, handleScroll.
  destruct (scroll (els w3)) as [sc|] eqn:E; [|done].
  cbn [els on_els scroll with_scroll st]. rewrite Hl3, Hall. done.
Qed.

Lemma all_loaded_condition_witness :
  let l1 := replicate 10 (group_of 7) in
  let l2 := replicate 10 (group_of 2) in
  let l3 := replicate 5 album in
  let w1 := step (FetchSettled 0 (page 25 l1)) (init sample_config) in
  let w2 := step (FetchSettled 1 (page 25 l2)) (loadPage false w1) in
  let w3 := step (FetchSettled 2 (page 25 l3)) (loadPage false w2) in
  data_category_code sample_config <> ""%string /\
  length l1 = 10%nat /\ length l2 = 10%nat /\ length l3 = 5%nat /\
  len (groups (st w3)) = 25 /\
  isAllLoaded (st w3) = true /\
  fetches (step (Scroll 9000) w3) = [].
Proof.
  intros l1 l2 l3 w1 w2 w3.
  assert (data_category_code sample_config <> ""%string) as Hc by discriminate.
  split; [exact Hc|].
  split; [reflexivity|]. split; [reflexivity|]. split; [reflexivity|].
  destruct all_loaded_condition as (_ & _ & _ & Hscenario).
  destruct (Hscenario sample_config l1 l2 l3 Hc eq_refl eq_refl eq_refl)
    as (_ & _ & Hlen & Hall & Hscroll).
  split; [exact Hlen|]. split; [exact Hall|].
  destruct (Hscroll 9000) as (_ & Hf & _). exact Hf.
Defined.

(** While a request is pending, [loadPage] returns at once, whatever its
    [reset] flag: it cancels nothing and issues nothing. *)
Lemma loadPage_while_loading (reset : bool) (w : World) :
  isLoading (st w) = true -> loadPage reset w = w.
Proof. intros H. unfold loadPage. by rewrite H. Qed.

(** A month change while a request is pending clears the list and leaves
    the pending request as it is: not aborted, not replaced. *)
Lemma monthChange_while_loading (val : string) (w : World) :
  isLoading (st w) = true -> val <> ""%string ->
  fetches (monthChange val w) = fetches w /\
  groups (st (monthChange val w)) = [] /\
  reportMonth (st (monthChange val w)) = val /\
  isLoading (st (monthChange val w)) = true.
Proof.
  intros Hl Hv. unfold monthChange.
  apply String.eqb_neq in Hv. rewrite Hv.
  rewrite loadPage_while_loading.
  - rewrite setEmptyVisible_st, setNoMoreVisible_st.
    rewrite (proj1 (setEmptyVisible_rest _ _)),
      (proj1 (setNoMoreVisible_rest _ _)).
    repeat case_match; cbn [st on_st on_els fetches];
      rewrite <- Hl; by destruct (st w).
  - rewrite setEmptyVisible_st, setNoMoreVisible_st.
    repeat case_match; cbn [st on_st on_els];
      rewrite <- Hl; by destruct (st w).
Qed.

(** C5 fails on the code.  January's first page is shown and a scroll has
    issued the request for January's second page when the user picks
    February.  The month-change listener clears the list and calls
    [loadPage({ reset: true })], which returns at its [isLoading] guard
    before reaching [cancelInFlight]: the pending request is neither
    aborted nor replaced.  Its response is then appended to the cleared
    list, so the list under the February filter holds January's second
    page, and no request for February was ever sent. *)
Theorem month_change_keeps_pending_load_more :
  let january1 := replicate 10 (group_of 7) in
  let january2 := [album] in
  let w1 := run [FetchSettled 0 (page 25 january1); Scroll 3600]
              (init sample_config) in
  let w2 := step (MonthChange "2025-02") w1 in
  let w3 := step (FetchSettled 1 (page 25 january2)) w2 in
  fetches w1
    = [mkFetch 1 (mkApiUrl (Some "17"%string) "blood_pressure" "2025-01" 2 10)
         false january1 (heights (st w1)) (offsets (st w1)) (Num 4110) 25
         false] /\
  isLoading (st w1) = true /\
  fetches w2 = fetches w1 /\
  reportMonth (st w2) = "2025-02"%string /\
  groups (st w2) = [] /\
  reportMonth (st w3) = "2025-02"%string /\
  groups (st w3) = january2 /\
  fetches w3 = [] /\
  isLoading (st w3) = false /\
  pageNum (st w3) = 3.
Proof. vm_compute. repeat split; reflexivity. Qed.

(** * Reachable worlds *)

Lemma viewer_only_refl w : viewer_only w w.
Proof. split; [by destruct (st w)|done]. Qed.

Lemma viewer_only_trans w1 w2 w3 :
  viewer_only w1 w2 -> viewer_only w2 w3 -> viewer_only w1 w3.
Proof.
  intros [H1 F1] [H2 F2]. split; [|congruence].
  rewrite H2, H1. by destruct (st w1).
Qed.

Lemma viewer_only_on_viewer g w : viewer_only w (on_viewer g w).
Proof. split; [|done]. simpl. by destruct (st w). Qed.

Lemma viewer_only_on_els g w : viewer_only w (on_els g w).
Proof. split; [|done]. simpl. by destruct (st w). Qed.

Lemma viewer_only_with_loads l w : viewer_only w (with_loads l w).
Proof. split; [|done]. simpl. by destruct (st w). Qed.

Lemma viewer_only_renderViewerImage w : viewer_only w (renderViewerImage w).
Proof.
  split; [rewrite renderViewerImage_st; by destruct (st w)|].
  unfold renderViewerImage.
  destruct (viewerLoading (els w)), (viewerImage (els w)), (viewerIndex (els w));
    try done.
  by destruct (length (images (viewer (st w))) =? 0)%nat.
Qed.

Lemma viewer_only_nextImage w : viewer_only w (nextImage w).
Proof.
  unfold nextImage.
  destruct (length (images (viewer (st w))) =? 0)%nat; [apply viewer_only_refl|].
  eapply viewer_only_trans;
    [apply viewer_only_on_viewer | apply viewer_only_renderViewerImage].
Qed.

Lemma viewer_only_prevImage w : viewer_only w (prevImage w).
Proof.
  unfold prevImage.
  destruct (length (images (viewer (st w))) =? 0)%nat; [apply viewer_only_refl|].
  eapply viewer_only_trans;
    [apply viewer_only_on_viewer | apply viewer_only_renderViewerImage].
Qed.

Lemma viewer_only_openViewer urls i w : viewer_only w (openViewer urls i w).
Proof.
  unfold openViewer. destruct (viewerEl (els w)); [|apply viewer_only_refl].
  repeat (eapply viewer_only_trans; [|apply viewer_only_renderViewerImage]
          || (eapply viewer_only_trans; [|apply viewer_only_on_els])
          || (eapply viewer_only_trans; [|apply viewer_only_on_viewer])).
  apply viewer_only_refl.
Qed.

Lemma viewer_only_closeViewer w : viewer_only w (closeViewer w).
Proof.
  unfold closeViewer. destruct (viewerEl (els w)); [|apply viewer_only_refl].
  split; [|by destruct (viewerImage _)].
  destruct (viewerImage _); simpl; by destruct (st w).
Qed.

Lemma viewer_only_onload l w : viewer_only w (onload l w).
Proof.
  unfold onload. destruct (negb _); [apply viewer_only_refl|].
  split.
  - destruct (viewerImage (els w)); simpl;
      destruct (viewerLoading _); simpl; by destruct (st w).
  - destruct (viewerImage (els w)); simpl; by destruct (viewerLoading _).
Qed.

Lemma viewer_only_onerror l w : viewer_only w (onerror l w).
Proof.
  unfold onerror. destruct (negb _); [apply viewer_only_refl|].
  destruct (viewerLoading (els w));
    [apply viewer_only_on_els | apply viewer_only_refl].
Qed.

Lemma viewer_only_touchend x y w : viewer_only w (touchend x y w).
Proof.
  unfold touchend. destruct (_ || _); [apply viewer_only_refl|].
  destruct (0 <? _); [apply viewer_only_prevImage | apply viewer_only_nextImage].
Qed.

(** Signals of the viewer leave the list and the fetch controller alone. *)
Lemma viewer_events_frame ev w :
  match ev with
  | Scroll _ | Resize _ _ | MonthChange _ | FetchSettled _ _ => True
  | _ => viewer_only w (step ev w)
  end.
Proof.
  destruct ev; try done; unfold step.
  - apply viewer_only_openViewer.
  - apply viewer_only_closeViewer.
  - destruct (viewerEl (els w)); [apply viewer_only_prevImage | apply viewer_only_refl].
  - destruct (viewerEl (els w)); [apply viewer_only_nextImage | apply viewer_only_refl].
  - destruct (viewerEl (els w)), (viewerLoading (els w));
      try apply viewer_only_refl. apply viewer_only_renderViewerImage.
  - destruct (viewerEl (els w)); [apply viewer_only_on_viewer | apply viewer_only_refl].
  - destruct (viewerEl (els w)); [apply viewer_only_touchend | apply viewer_only_refl].
  - destruct (find_load id (loads w)); [|apply viewer_only_refl].
    eapply viewer_only_trans; [apply viewer_only_with_loads | apply viewer_only_onload].
  - destruct (find_load id (loads w)); [|apply viewer_only_refl].
    eapply viewer_only_trans; [apply viewer_only_with_loads | apply viewer_only_onerror].
Qed.

Lemma loadPage_no_category (reset : bool) (w : World) :
  isLoading (st w) = false -> categoryCode (st w) = ""%string ->
  loadPage reset w = showToast "缺少复查分类参数" error w.
Proof. intros Hl Hc. unfold loadPage. by rewrite Hl, Hc. Qed.

Lemma loadPage_categoryCode (reset : bool) (w : World) :
  categoryCode (st (loadPage reset w)) = categoryCode (st w).
Proof.
  destruct (isLoading (st w)) eqn:El.
  { by rewrite loadPage_while_loading. }
  destruct (String.eqb (categoryCode (st w)) "") eqn:Ec.
  - apply String.eqb_eq in Ec.
    by rewrite loadPage_no_category, showToast_st.
  - apply String.eqb_neq in Ec.
    destruct (loadPage_issues reset w El Ec) as (f & H).
    do 15 (destruct H as [_ H]). rewrite H.
    destruct reset; by destruct (st w).
Qed.

Lemma handleScroll_categoryCode (w : World) :
  categoryCode (st (handleScroll w)) = categoryCode (st w).
Proof.
  unfold handleScroll.
  destruct (scroll (els w)); [|done].
  destruct (isLoading (st w)); [done|].
  destruct (isAllLoaded (st w)); [done|].
  destruct (js_lt _ _); [apply loadPage_categoryCode | done].
Qed.

Lemma monthChange_categoryCode (val : string) (w : World) :
  categoryCode (st (monthChange val w)) = categoryCode (st w).
Proof.
  unfold monthChange. destruct (String.eqb val ""); [done|].
  rewrite loadPage_categoryCode.
  rewrite setEmptyVisible_st, setNoMoreVisible_st.
  repeat case_match; cbn [st on_st on_els]; by destruct (st w).
Qed.

Lemma settle_categoryCode (f : Fetch) (r : Response) (w : World) :
  categoryCode (st (settle f r w)) = categoryCode (st w).
Proof.
  assert (forall m, categoryCode (st (on_finally (on_rejected f m w)))
                    = categoryCode (st w)) as Hrej.
  { intros m. rewrite on_finally_st, on_rejected_st.
    cbn [categoryCode with_abortController with_isLoading].
    rewrite recomputeLayout_categoryCode. cbn [st on_st]. by destruct (st w). }
  assert (forall d, categoryCode (st (on_finally (on_fulfilled f d w)))
                    = categoryCode (st w)) as Hful.
  { intros d. rewrite on_finally_st.
    cbn [categoryCode with_abortController with_isLoading].
    by destruct (on_fulfilled_proj f d w) as (_ & _ & _ & -> & _). }
  unfold settle. destruct (f_aborted f).
  { rewrite on_finally_st. by destruct (st w). }
  destruct r as [ok [d|]|m]; [destruct (negb ok || d_success_false d)|..];
    by rewrite ?Hrej, ?Hful.
Qed.

Lemma step_categoryCode (ev : Event) (w : World) :
  categoryCode (st (step ev w)) = categoryCode (st w).
Proof.
  pose proof (viewer_events_frame ev w) as Hv.
  destruct ev;
    try (destruct Hv as [-> _]; by destruct (st w)); unfold step.
  - destruct (scroll (els w)); [|done]. by rewrite handleScroll_categoryCode.
  - by destruct (scroll (els w)).
  - apply monthChange_categoryCode.
  - destruct (find_fetch id (fetches w)); [|done].
    by rewrite settle_categoryCode.
Qed.

Lemma run_snoc (evs : list Event) (ev : Event) (w : World) :
  run (evs ++ [ev]) w = step ev (run evs w).
Proof. unfold run. by rewrite fold_left_app. Qed.

Lemma reachable_categoryCode (c : PageConfig) (evs : list Event) :
  categoryCode (st (run evs (init c))) = data_category_code c.
Proof.
  induction evs as [|ev evs IH] using rev_ind.
  - unfold run, init. simpl fold_left. by rewrite loadPage_categoryCode.
  - by rewrite run_snoc, step_categoryCode.
Qed.

(** A world without a category never starts a request. *)
Lemma step_idle_without_category (ev : Event) (w : World) :
  categoryCode (st w) = ""%string ->
  isLoading (st w) = false -> fetches w = [] ->
  isLoading (st (step ev w)) = false /\ fetches (step ev w) = [].
Proof.
  intros Hc Hl Hf.
  assert (forall reset w', categoryCode (st w') = ""%string ->
            isLoading (st w') = false -> fetches w' = [] ->
            isLoading (st (loadPage reset w')) = false /\
            fetches (loadPage reset w') = []) as Hload.
  { intros reset w' Hc' Hl' Hf'. rewrite loadPage_no_category by done.
    rewrite showToast_st. split; [done|].
    unfold showToast. by destruct (toast (els w')). }
  pose proof (viewer_events_frame ev w) as Hv.
  destruct ev;
    try (destruct Hv as [-> ->]; split; [by destruct (st w)|done]);
    unfold step.
  - destruct (scroll (els w)); [|done].
    unfold handleScroll. cbn [els on_els scroll with_scroll st].
    rewrite Hl. destruct (isAllLoaded (st w)); [done|].
    destruct (js_lt _ _); [by apply Hload | done].
  - by destruct (scroll (els w)).
  - unfold monthChange. destruct (String.eqb val ""); [done|].
    apply Hload.
    + rewrite setEmptyVisible_st, setNoMoreVisible_st.
      repeat case_match; cbn [st on_st on_els];
        rewrite <- Hc; by destruct (st w).
    + rewrite setEmptyVisible_st, setNoMoreVisible_st.
      repeat case_match; cbn [st on_st on_els];
        rewrite <- Hl; by destruct (st w).
    + rewrite (proj1 (setEmptyVisible_rest _ _)),
        (proj1 (setNoMoreVisible_rest _ _)).
      by repeat case_match.
  - rewrite Hf. done.
Qed.

Lemma reachable_idle_without_category (w : World) :
  reachable w -> categoryCode (st w) = ""%string ->
  isLoading (st w) = false /\ fetches w = [].
Proof.
  intros (c & evs & ->). rewrite reachable_categoryCode. intros Hc.
  induction evs as [|ev evs IH] using rev_ind.
  - unfold run, init. simpl fold_left.
    rewrite loadPage_no_category by done.
    rewrite showToast_st. split; [done|].
    unfold showToast. by destruct (toast _).
  - rewrite run_snoc. destruct IH as [Hl Hf].
    apply step_idle_without_category; [|done|done].
    by rewrite reachable_categoryCode.
Qed.

(** The month-change listener on a page without category: the error is
    surfaced again, nothing else of the fetch controller moves. *)
Lemma monthChange_without_category (val : string) (w : World) :
  val <> ""%string -> categoryCode (st w) = ""%string ->
  isLoading (st w) = false -> fetches w = [] ->
  let w' := monthChange val w in
  categoryCode (st w') = ""%string /\ isLoading (st w') = false /\
  fetches w' = [] /\ next_id w' = next_id w /\
  pageNum (st w') = pageNum (st w) /\
  toast (els w')
  = match toast (els w) with
    | Some ts => Some (ts ++ [mkToast "缺少复查分类参数" error])
    | None => None
    end.
Proof.
  intros Hv Hc Hl Hf w'. subst w'. apply String.eqb_neq in Hv.
  unfold monthChange. rewrite Hv.
  match goal with |- context [loadPage true ?x] => set (w6 := x) end.
  assert (categoryCode (st w6) = ""%string /\ isLoading (st w6) = false /\
          pageNum (st w6) = pageNum (st w)) as (Hc6 & Hl6 & Hp6).
  { subst w6. rewrite setEmptyVisible_st, setNoMoreVisible_st.
    repeat case_match; cbn [st on_st on_els];
      rewrite <- Hc, <- Hl; by destruct (st w). }
  assert (fetches w6 = [] /\ next_id w6 = next_id w) as (Hf6 & Hn6).
  { subst w6.
    rewrite (proj1 (setEmptyVisible_rest _ _)), (proj1 (setNoMoreVisible_rest _ _)),
      (proj2 (setEmptyVisible_rest _ _)), (proj2 (setNoMoreVisible_rest _ _)).
    rewrite <- Hf. by repeat case_match. }
  assert (toast (els w6) = toast (els w)) as Ht6.
  { subst w6. unfold setEmptyVisible, setNoMoreVisible.
    repeat case_match; reflexivity. }
  clearbody w6.
  rewrite loadPage_no_category by done. rewrite showToast_st.
  unfold showToast. rewrite Ht6.
  by destruct (toast (els w)).
Qed.

(** No latch: each of a series of month changes surfaces the error. *)
Lemma monthChanges_without_category (vals : list string) : forall w : World,
  Forall (fun v => v <> ""%string) vals ->
  categoryCode (st w) = ""%string -> isLoading (st w) = false -> fetches w = [] ->
  let w' := run (map MonthChange vals) w in
  fetches w' = [] /\ next_id w' = next_id w /\
  pageNum (st w') = pageNum (st w) /\
  toast (els w')
  = match toast (els w) with
    | Some ts =>
        Some (ts ++ replicate (length vals) (mkToast "缺少复查分类参数" error))
    | None => None
    end.
Proof.
  induction vals as [|v vals IH]; intros w Hvals Hc Hl Hf w'; subst w'.
  - unfold run. simpl. destruct (toast (els w)); by rewrite ?app_nil_r.
  - apply Forall_cons in Hvals as [Hv Hvals].
    destruct (monthChange_without_category v w Hv Hc Hl Hf)
      as (Hc1 & Hl1 & Hf1 & Hn1 & Hp1 & Ht1).
    change (run (map MonthChange (v :: vals)) w)
      with (run (map MonthChange vals) (monthChange v w)).
    destruct (IH (monthChange v w) Hvals Hc1 Hl1 Hf1) as (Hf' & Hn' & Hp' & Ht').
    rewrite Hf', Hn', Hp', Ht', Hn1, Hp1, Ht1.
    repeat split. destruct (toast (els w)); [|done].
    by rewrite <- app_assoc.
Qed.

(** C9, as the claim states it, fails: the configuration error is not
    surfaced once.  On a page without category whose document has the
    toast container, the error is shown by [init], again by the first
    month change and again by the second one, three toasts in all, and
    no request is ever sent.  On a page whose document has no toast
    container, nothing is surfaced at all. *)
Lemma config_error_surfaced_at_every_trigger :
  let c := mkPageConfig "17" "" "" "2025-01" sample_dom in
  let c0 := mkPageConfig "17" "" "" "2025-01" (with_toast None sample_dom) in
  let cfg := mkToast "缺少复查分类参数" error in
  toast (els (init c)) = Some [cfg] /\
  toast (els (run [MonthChange "2025-02"] (init c))) = Some [cfg; cfg] /\
  toast (els (run [MonthChange "2025-02"; MonthChange "2025-03"] (init c)))
    = Some [cfg; cfg; cfg] /\
  fetches (run [MonthChange "2025-02"; MonthChange "2025-03"] (init c)) = [] /\
  els (init c0) = dom c0.
Proof. by vm_compute. Qed.

(** C9, amended.  In every world the page can reach, when the category
    code is empty a call of [loadPage] leaves the whole state as it is
    (pagination and list content included), sends no request and leaves
    none pending, creates no other pending work, and surfaces the
    configuration error once per call: exactly one error toast is
    appended when the document has the toast container, and nothing is
    shown when it has none.  Nothing remembers that the error was shown:
    each month change that follows surfaces it again, one toast per
    change, and still no request is sent and the page counter stays. *)
Theorem loadPage_without_category (reset : bool) (w : World)
    (vals : list string) :
  reachable w -> categoryCode (st w) = ""%string ->
  Forall (fun v => v <> ""%string) vals ->
  let cfg := mkToast "缺少复查分类参数" error in
  let surfaced (k : nat) :=
    match toast (els w) with
    | Some ts => Some (ts ++ replicate k cfg)
    | None => None
    end in
  let w' := loadPage reset w in
  let wn := run (map MonthChange vals) w in
  (st w' = st w /\
   fetches w' = [] /\ fetches w = [] /\
   loads w' = loads w /\ next_id w' = next_id w /\
   els w' = with_toast (surfaced 1%nat) (els w)) /\
  (toast (els wn) = surfaced (length vals) /\
   fetches wn = [] /\ next_id wn = next_id w /\
   pageNum (st wn) = pageNum (st w)).
Proof.
  intros Hr Hc Hvals cfg surfaced w' wn.
  destruct (reachable_idle_without_category w Hr Hc) as [Hl Hf].
  split.
  - subst w'. rewrite loadPage_no_category by done.
    rewrite showToast_st. subst surfaced cfg. unfold showToast.
    destruct (els w) as [? ? ? ? ? ? [ts|] ? ? ? ? ?] eqn:E;
      cbn; rewrite ?E; cbn; by rewrite Hf.
  - destruct (monthChanges_without_category vals w Hvals Hc Hl Hf)
      as (Hf' & Hn' & Hp' & Ht').
    subst wn surfaced cfg. by rewrite Hf', Hn', Hp', Ht'.
Qed.

Lemma loadPage_without_category_witness :
  let c := mkPageConfig "17" "" "" "2025-01" sample_dom in
  let w := run [Scroll 40; MonthChange "2025-02"] (init c) in
  let cfg := mkToast "缺少复查分类参数" error in
  reachable w /\ categoryCode (st w) = ""%string /\
  Forall (fun v => v <> ""%string) ["2025-03"; "2025-04"]%string /\
  toast (els w) = Some [cfg; cfg; cfg] /\
  st (loadPage false w) = st w /\
  fetches (loadPage false w) = [] /\
  toast (els (loadPage false w)) = Some [cfg; cfg; cfg; cfg] /\
  toast (els (run (map MonthChange ["2025-03"; "2025-04"]%string) w))
    = Some [cfg; cfg; cfg; cfg; cfg] /\
  fetches (run (map MonthChange ["2025-03"; "2025-04"]%string) w) = [].
Proof.
  intros c w cfg.
  assert (reachable w) as Hr by (by exists c, [Scroll 40; MonthChange "2025-02"%string]).
  assert (categoryCode (st w) = ""%string) as Hc by (by vm_compute).
  assert (Forall (fun v => v <> ""%string) ["2025-03"; "2025-04"]%string) as Hv
    by (repeat constructor; discriminate).
  assert (toast (els w) = Some [cfg; cfg; cfg]) as Ht by (by vm_compute).
  split; [exact Hr|]. split; [exact Hc|]. split; [exact Hv|].
  split; [exact Ht|].
  destruct (loadPage_without_category false w ["2025-03"; "2025-04"]%string
    Hr Hc Hv) as ((Hst & Hf & _ & _ & _ & He) & (Htn & Hfn & _)).
  split; [exact Hst|]. split; [exact Hf|].
  split; [rewrite He, Ht; reflexivity|].
  split; [rewrite Htn, Ht; reflexivity | exact Hfn].
Defined.
